(** * The event-flow rendering pipeline of main.cpp

    main.cpp draws, for every generated event and every configured jet
    algorithm, one page of a PDF document: an energy-flow histogram filled
    from the ghost constituents of the jets, markers for the stable
    particles, labels for the two resonances and a hand-made legend.

    The embedding follows main() statement by statement.

    - A C++ [double] is an exact rational ([Q]): rounding, infinities and
      NaN are outside the model.  The constants a double is compared with
      or binned against ([1e-50], [TMath::Pi()]) are the exact values of
      their doubles.
    - The libraries main() calls (Pythia, fastjet, ROOT's random generator,
      the text formatters) are the fields of the class [Externals]; nothing
      is assumed about them.
    - The histogram [pTflow] (ROOT's TH2D with fixed-width bins) and the
      [std::map] holding the jet definitions are modelled by their
      documented behaviour.
    - The calls main() issues while it builds a page (clustering, histogram
      filling, the drawing helpers of drawF.h, the final Print) are recorded,
      in program order, in the page.
    - Style set-up (gStyle, margins, axis titles, SetRangeUser, SetLogz) and
      the progress messages do not take part in any property below and are
      left out. *)

From Stdlib Require Import QArith Qround Qabs ZArith List String Ascii Bool.
From Stdlib Require Import Lia Lqa Sorted Permutation.
Import ListNotations.

Local Open Scope Q_scope.

(** ** Doubles *)

(** [a > b] and [a < b] on doubles. *)
Definition Qgtb (a b : Q) : bool := negb (Qle_bool a b).
Definition Qltb (a b : Q) : bool := negb (Qle_bool b a).

(** The literal [1e-50] of line 188 as the double it denotes,
    8424983333484575 / 2^219: the double nearest to 10^-50, a little above
    it. *)
Definition double_1e_50 : Q :=
  8424983333484575
  # 842498333348457493583344221469363458551160763204392890034487820288.

(** The C++ cast [int(x)]: truncation toward zero. *)
Definition int_of_double (x : Q) : Z := (Qnum x ÷ Zpos (Qden x))%Z.

(** ** Pythia8::Particle, as far as main() reads it *)

Module Particle.
Record t := mk {
  isResonance : bool;
  status : Z;
  isFinal : bool;
  px : Q; py : Q; pz : Q; e : Q;
  y : Q;
  pT : Q;
  charge : Q;
  daughter1 : nat;
  daughter2 : nat
}.
End Particle.
Abbreviation Particle := Particle.t.

(** ** fastjet::PseudoJet

    main() builds pseudojets in two ways: from a four-momentum,
    [PseudoJet(px, py, pz, E)], and in polar form,
    [reset_momentum_PtYPhiM(pt, y, phi, m)]. *)

Inductive PseudoJet : Type :=
| PxPyPzE (px py pz E : Q)
| reset_momentum_PtYPhiM (pt y phi m : Q).

Definition Q_eq_dec (a b : Q) : {a = b} + {a <> b}.
Proof. decide equality; [apply Pos.eq_dec | apply Z.eq_dec]. Defined.

Definition PseudoJet_eq_dec (a b : PseudoJet) : {a = b} + {a <> b}.
Proof. decide equality; apply Q_eq_dec. Defined.

Inductive JetAlgorithm := kt_algorithm | cambridge_algorithm | antikt_algorithm.
Inductive RecombinationScheme := E_scheme.
Inductive Strategy := Best.

Record JetDefinition := mkJetDefinition {
  jet_algorithm : JetAlgorithm;
  jet_R : Q;
  recomb_scheme : RecombinationScheme;
  strategy : Strategy
}.

(** A jet returned by the cluster sequence: its own momentum and the input
    pseudojets it is made of. *)
Record Jet := mkJet {
  momentum : PseudoJet;
  constituents : list PseudoJet
}.

(** ** ROOT histogram with fixed-width bins *)

Module TAxis.
Record t := mk { fNbins : Z; fXmin : Q; fXmax : Q }.

(** TAxis::GetBinCenter for fixed-width bins. *)
Definition GetBinCenter (a : t) (bin : Z) : Q :=
  let binwidth := (fXmax a - fXmin a) / inject_Z (fNbins a) in
  fXmin a + inject_Z (bin - 1) * binwidth + (1 # 2) * binwidth.

(** TAxis::FindBin for fixed-width bins: 0 is the underflow bin,
    [fNbins + 1] the overflow bin. *)
Definition FindBin (a : t) (x : Q) : Z :=
  if Qltb x (fXmin a) then 0%Z
  else if negb (Qltb x (fXmax a)) then (fNbins a + 1)%Z
  else (1 + int_of_double
              (inject_Z (fNbins a) * (x - fXmin a) / (fXmax a - fXmin a)))%Z.
End TAxis.
Abbreviation TAxis := TAxis.t.

Module TH2D.
Record t := mk {
  fXaxis : TAxis;
  fYaxis : TAxis;
  content : Z -> Z -> Q
}.

(** [new TH2D(name, title, nx, xlow, xup, ny, ylow, yup)]. *)
Definition new (nx : Z) (xlow xup : Q) (ny : Z) (ylow yup : Q) : t :=
  mk (TAxis.mk nx xlow xup) (TAxis.mk ny ylow yup) (fun _ _ => 0).

Definition GetBinContent (h : t) (binx biny : Z) : Q := content h binx biny.

(** TH1::Reset: every bin content becomes zero, the axes stay. *)
Definition Reset (h : t) : t :=
  mk (fXaxis h) (fYaxis h) (fun _ _ => 0).

(** TH2::Fill(x, y, w): the content of the bin that holds (x, y) is
    incremented by the weight w. *)
Definition Fill (h : t) (x y w : Q) : t :=
  let binx := TAxis.FindBin (fXaxis h) x in
  let biny := TAxis.FindBin (fYaxis h) y in
  mk (fXaxis h) (fYaxis h)
     (fun i j => if ((i =? binx) && (j =? biny))%Z
                 then content h i j + w
                 else content h i j).
End TH2D.
Abbreviation TH2D := TH2D.t.

(** ** std::map<TString, V>

    The entries of a [std::map] are kept, and iterated, in ascending key
    order; TString keys compare byte by byte. *)

Module StdMap.
Definition t (V : Type) := list (string * V).

Definition empty {V : Type} : t V := [].

(** [m[k] = v]: insert, or overwrite the value stored under [k]. *)
Fixpoint assign {V : Type} (m : t V) (k : string) (v : V) : t V :=
  match m with
  | [] => [(k, v)]
  | (k', v') :: m' =>
      match String.compare k k' with
      | Lt => (k, v) :: (k', v') :: m'
      | Eq => (k, v) :: m'
      | Gt => (k', v') :: assign m' k v
      end
  end.

Definition keys {V : Type} (m : t V) : list string := map fst m.

Definition lt (a b : string) : Prop := String.compare a b = Lt.
End StdMap.

(** ** The libraries main() calls *)

Class Externals := {
  (** Pythia8::Pythia: [next] generates the next event and tells whether it
      succeeded, [event] is the current event record. *)
  Pythia : Type;
  next : Pythia -> bool * Pythia;
  event : Pythia -> list Particle;
  (** gRandom->Poisson(mu). *)
  TRandom : Type;
  Poisson : TRandom -> Q -> nat * TRandom;
  (** pt(), rap() and phi_std() of a pseudojet built from (px, py, pz, E). *)
  pt_of : Q -> Q -> Q -> Q -> Q;
  rap_of : Q -> Q -> Q -> Q -> Q;
  phi_std_of : Q -> Q -> Q -> Q -> Q;
  (** [sorted_by_pt(ClusterSequence(particles, def).inclusive_jets(ptmin))]. *)
  inclusive_jets : list PseudoJet -> JetDefinition -> Q -> list Jet;
  (** std::to_string(double) and ROOT's Form(format, double). *)
  to_string : Q -> string;
  Form : string -> Q -> string
}.

(** ** Hard-coded settings and the locals main() fixes before its loops *)

Record Settings := mkSettings {
  pTmin_jet : Q;
  pTmin_hadron : Q;
  yMax : Q;
  mu : Q;
  colHS : Z; colPos : Z; colNeg : Z; colNeut : Z; colPU : Z;
  doAntik_t : bool; dok_t : bool; doCambridge_Aachen : bool;
  R : Q;
  NyBins : Z; NphiBins : Z;
  phiMax : Q;
  nEvent : nat
}.

(** TMath::Pi() as the double it is. *)
Definition Pi : Q := 884279719003555 # 281474976710656.

(** ROOT colour indices. *)
Definition kBlack : Z := 1.
Definition kRed : Z := 632.
Definition kBlue : Z := 600.
Definition kGreen : Z := 416.
Definition kGray : Z := 920.

(** The values main.cpp is compiled with; the number of events comes from
    the configuration file. *)
Definition hard_coded (numberOfEvents : nat) : Settings := {|
  pTmin_jet := 25;
  pTmin_hadron := 1;
  yMax := 4;
  mu := 60;
  colHS := kBlack; colPos := kRed; colNeg := kBlue;
  colNeut := kGreen + 3; colPU := kGray + 1;
  doAntik_t := true; dok_t := true; doCambridge_Aachen := false;
  R := 0.4;
  NyBins := 400 / 2; NphiBins := 314 / 2;
  phiMax := Pi;
  nEvent := numberOfEvents
|}.

(** ** What main() does to the outside, page by page *)

Inductive Call : Type :=
| ClusterSequence (particles : list PseudoJet) (def : JetDefinition) (ptmin : Q)
| Reset
| Fill (x y w : Q)
| Draw
| drawParticleMarker (p : Particle) (style col : Z) (size : Q)
| drawParticleText (p : Particle) (col : Z)
| drawText (x y : Q) (txt : string) (align : option Z)
| drawLegendBox (x1 y1 x2 y2 : Q)
| drawMarker (x y : Q) (style col : Z) (size : Q)
| Print.

(** One iteration of the loop over [jetDefs], closed by [can->Print(pdf)]. *)
Record Page := mkPage {
  pg_iEvent : nat;
  pg_label : string;
  pg_calls : list Call
}.

(** The histogram calls of a page act on [pTflow]. *)
Definition exec (h : TH2D) (c : Call) : TH2D :=
  match c with
  | Reset => TH2D.Reset h
  | Fill x y w => TH2D.Fill h x y w
  | _ => h
  end.

Definition exec_all (calls : list Call) (h : TH2D) : TH2D :=
  fold_left exec calls h.

(** ** main() *)

Section Main.
Context {Ext : Externals}.
Variable cfg : Settings.

(** pt(), rap() and phi_std() of a pseudojet.  A pseudojet set up in polar
    form gives back the coordinates it was set up with. *)
Definition pt (c : PseudoJet) : Q :=
  match c with
  | PxPyPzE px py pz E => pt_of px py pz E
  | reset_momentum_PtYPhiM pt _ _ _ => pt
  end.

Definition rap (c : PseudoJet) : Q :=
  match c with
  | PxPyPzE px py pz E => rap_of px py pz E
  | reset_momentum_PtYPhiM _ y _ _ => y
  end.

Definition phi_std (c : PseudoJet) : Q :=
  match c with
  | PxPyPzE px py pz E => phi_std_of px py pz E
  | reset_momentum_PtYPhiM _ _ phi _ => phi
  end.

Definition PseudoJet_of (p : Particle) : PseudoJet :=
  PxPyPzE (Particle.px p) (Particle.py p) (Particle.pz p) (Particle.e p).

(** The energy-flow histogram main() allocates. *)
Definition new_pTflow : TH2D :=
  TH2D.new (NyBins cfg) (- yMax cfg) (yMax cfg)
           (NphiBins cfg) (- phiMax cfg) (phiMax cfg).

(** *** Setting up fastjet (lines 109-115) *)

Definition antikt_label : string :=
  ("Anti-#it{k_{t}} jets, #it{R} = " ++ to_string (R cfg))%string.
Definition kt_label : string :=
  ("#it{k_{t}} jets, #it{R} = " ++ to_string (R cfg))%string.
Definition cambridge_label : string :=
  "Cambridge-Aachen jets,  #it{R} = 0.4"%string.

Definition jetDefs : StdMap.t JetDefinition :=
  let m := StdMap.empty in
  let m := if doAntik_t cfg
           then StdMap.assign m antikt_label
                  (mkJetDefinition antikt_algorithm (R cfg) E_scheme Best)
           else m in
  let m := if dok_t cfg
           then StdMap.assign m kt_label
                  (mkJetDefinition kt_algorithm (R cfg) E_scheme Best)
           else m in
  let m := if doCambridge_Aachen cfg
           then StdMap.assign m cambridge_label
                  (mkJetDefinition cambridge_algorithm (R cfg) E_scheme Best)
           else m in
  m.

(** The labels in the order in which the assignments above are executed. *)
Definition configured_labels : list string :=
  (if doAntik_t cfg then [antikt_label] else []) ++
  (if dok_t cfg then [kt_label] else []) ++
  (if doCambridge_Aachen cfg then [cambridge_label] else []).

(** *** Identify particles (lines 125-133) *)

Definition identify_step
  (acc : list Particle * list Particle * list PseudoJet) (p : Particle)
  : list Particle * list Particle * list PseudoJet :=
  let '(VH, ptcls_hs, stbl_ptcls) := acc in
  let VH := if Particle.isResonance p && (Particle.status p =? -62)%Z
            then VH ++ [p] else VH in
  if negb (Particle.isFinal p) then (VH, ptcls_hs, stbl_ptcls)
  else (VH, ptcls_hs ++ [p], stbl_ptcls ++ [PseudoJet_of p]).

Definition identify (ev : list Particle)
  : list Particle * list Particle * list PseudoJet :=
  fold_left identify_step ev ([], [], []).

(** *** Ghost particles on the grid of the histogram (lines 151-160) *)

Definition pTghost : Q := 1e-100.

(** The bin numbers 1 .. n of a counting loop. *)
Definition bins (n : Z) : list Z := map Z.of_nat (seq 1 (Z.to_nat n)).

Definition ghost_at (h : TH2D) (iy iphi : Z) : PseudoJet :=
  let y := TAxis.GetBinCenter (TH2D.fXaxis h) iy in
  let phi := TAxis.GetBinCenter (TH2D.fYaxis h) iphi in
  reset_momentum_PtYPhiM pTghost y phi 0.

Definition ghosts (h : TH2D) : list PseudoJet :=
  flat_map (fun iy => map (fun iphi => ghost_at h iy iphi)
                          (bins (NphiBins cfg)))
           (bins (NyBins cfg)).

(** *** Pileup (lines 163-174) *)

Definition pileup_step (acc : list PseudoJet * list Particle) (p : Particle)
  : list PseudoJet * list Particle :=
  let '(stbl_ptcls, ptcls_pu) := acc in
  if negb (Particle.isFinal p) then (stbl_ptcls, ptcls_pu)
  else (stbl_ptcls ++ [PseudoJet_of p], ptcls_pu ++ [p]).

Fixpoint pileup (n_inel : nat) (pythiaPU : Pythia)
  (stbl_ptcls : list PseudoJet) (ptcls_pu : list Particle)
  : Pythia * list PseudoJet * list Particle :=
  match n_inel with
  | O => (pythiaPU, stbl_ptcls, ptcls_pu)
  | S n =>
      let (ok, pythiaPU) := next pythiaPU in
      if negb ok then pileup n pythiaPU stbl_ptcls ptcls_pu
      else
        let (stbl_ptcls, ptcls_pu) :=
          fold_left pileup_step (event pythiaPU) (stbl_ptcls, ptcls_pu) in
        pileup n pythiaPU stbl_ptcls ptcls_pu
  end.

(** *** One page (lines 180-255) *)

(** Fill the pT flow (lines 183-191). *)
Definition flow_constituent (jet : Jet) (c : PseudoJet) : list Call :=
  if Qgtb (pt c) double_1e_50 then []
  else [Fill (rap c) (phi_std c) (pt (momentum jet))].

Definition flow_jet (jet : Jet) : list Call :=
  flat_map (flow_constituent jet) (constituents jet).

Definition flow_calls (jets : list Jet) : list Call :=
  Reset :: flat_map flow_jet jets.

(** Will only show particles with pT > pTmin and |y| < yMax. *)
Definition shown (p : Particle) : bool :=
  Qltb (Qabs (Particle.y p)) (yMax cfg)
  && Qgtb (Particle.pT p) (pTmin_hadron cfg).

(** Lines 198-202. *)
Definition pu_marker (p : Particle) : list Call :=
  if shown p
  then [drawParticleMarker p
          (if negb (Qeq_bool (Particle.charge p) 0) then 24 else 25)%Z
          (colPU cfg) 0.4]
  else [].

(** Lines 205-216. *)
Definition hs_marker (p : Particle) : list Call :=
  if shown p then
    if Qgtb (Particle.charge p) 0 then
      [drawParticleMarker p 5 (colPos cfg) 0.8]
    else if Qltb (Particle.charge p) 0 then
      [drawParticleMarker p 5 (colNeg cfg) 0.8]
    else
      [drawParticleMarker p 21 (colNeut cfg) 0.4;
       drawParticleMarker p 5 (colNeut cfg) 0.8]
  else [].

(** Lines 219-225; [ev] is [pythia.event]. *)
Definition VH_text (ev : list Particle) (p : Particle) : list Call :=
  let d1 := nth (Particle.daughter1 p) ev p in
  let d2 := nth (Particle.daughter2 p) ev p in
  [drawParticleText p (colHS cfg);
   drawParticleText d1 (colHS cfg);
   drawParticleText d2 (colHS cfg)].

Definition desc : string :=
  ("#it{pp} #rightarrow #it{WH} #rightarrow"
   ++ " #it{q#bar{q}b#bar{b}},  #sqrt{#it{s}} = 13.6 TeV")%string.

(** Lines 233-253. *)
Definition legend : list Call :=
  [drawLegendBox 0.66 0.67 0.85 0.925;
   drawText 0.715 0.90 "Hard scatter" (Some 12%Z);
   drawMarker 0.68 0.90 20 (colHS cfg) 0.8;
   drawMarker 0.7 0.90 29 (colHS cfg) 1.2;
   drawText 0.675 0.85 "Stable particles" (Some 12%Z);
   drawText 0.675 0.824 "   +    #bf{#minus}    #scale[0.9]{neutral}"
            (Some 12%Z);
   drawMarker 0.683 0.82 5 (colPos cfg) 0.8;
   drawMarker 0.717 0.82 5 (colNeg cfg) 0.8;
   drawMarker 0.75 0.82 21 (colNeut cfg) 0.4;
   drawMarker 0.75 0.82 5 (colNeut cfg) 0.8;
   drawText 0.675 0.775 (Form "Pileup  #it{#mu} = %.0f" (mu cfg)) (Some 12%Z);
   drawText 0.675 0.745 "   #pm    #scale[0.9]{neutral}" (Some 12%Z);
   drawMarker 0.683 0.74 24 (colPU cfg) 0.4;
   drawMarker 0.717 0.74 25 (colPU cfg) 0.4;
   drawText 0.70 0.70
            (Form "#scale[0.8]{#it{p}_{T}^{ptcl} > %.1f GeV}" (pTmin_hadron cfg))
            (Some 12%Z)].

(** The body of the loop over [jetDefs]. *)
Definition page_calls (ev VH ptcls_hs ptcls_pu : list Particle)
  (stbl_ptcls : list PseudoJet) (first : bool)
  (jetDef : string * JetDefinition) : list Call :=
  let x := 0.06 in
  let y := 0.96 in
  let jets := inclusive_jets stbl_ptcls (snd jetDef) (pTmin_jet cfg) in
  [ClusterSequence stbl_ptcls (snd jetDef) (pTmin_jet cfg)]
  ++ flow_calls jets
  ++ [Draw]
  ++ flat_map pu_marker ptcls_pu
  ++ flat_map hs_marker ptcls_hs
  ++ flat_map (VH_text ev) VH
  ++ [drawText x y desc None;
      drawText 0.87 y
        (fst jetDef ++ Form ", #it{p}_{T} > %.0f GeV" (pTmin_jet cfg))%string
        (Some 31%Z)]
  ++ (if first then legend else [])
  ++ [Print].

(** The loop over [jetDefs] (lines 178-256): [first] is true on entry and
    false after the first iteration. *)
Fixpoint algorithm_loop (iEvent : nat) (ev VH ptcls_hs ptcls_pu : list Particle)
  (stbl_ptcls : list PseudoJet) (first : bool)
  (defs : list (string * JetDefinition)) : list Page :=
  match defs with
  | [] => []
  | jetDef :: rest =>
      mkPage iEvent (fst jetDef)
             (page_calls ev VH ptcls_hs ptcls_pu stbl_ptcls first jetDef)
      :: algorithm_loop iEvent ev VH ptcls_hs ptcls_pu stbl_ptcls false rest
  end.

(** *** The event loop (lines 119-258) *)

Record State := mkState {
  pythia : Pythia;
  pythiaPU : Pythia;
  gRandom : TRandom;
  pTflow : TH2D
}.

Definition all_calls (pages : list Page) : list Call :=
  flat_map pg_calls pages.

(** The body of the loop over events. *)
Definition event_body (iEvent : nat) (st : State) : State * list Page :=
  let (ok, py) := next (pythia st) in
  if negb ok then (mkState py (pythiaPU st) (gRandom st) (pTflow st), [])
  else
    let '(VH, ptcls_hs, stbl_ptcls) := identify (event py) in
    if negb (List.length VH =? 2)%nat
    then (mkState py (pythiaPU st) (gRandom st) (pTflow st), [])
    else
      let stbl_ptcls := stbl_ptcls ++ ghosts (pTflow st) in
      let (n_inel, rnd) := Poisson (gRandom st) (mu cfg) in
      let '(pu, stbl_ptcls, ptcls_pu) :=
        pileup n_inel (pythiaPU st) stbl_ptcls [] in
      let pages :=
        algorithm_loop iEvent (event py) VH ptcls_hs ptcls_pu stbl_ptcls
                       true jetDefs in
      (mkState py pu rnd (exec_all (all_calls pages) (pTflow st)), pages).

(** [n] further iterations of the event loop, starting at event [iEvent];
    the result lists the pages event by event. *)
Fixpoint event_loop (n iEvent : nat) (st : State) : State * list (list Page) :=
  match n with
  | O => (st, [])
  | S n' =>
      let (st1, pages) := event_body iEvent st in
      let (st2, rest) := event_loop n' (S iEvent) st1 in
      (st2, pages :: rest)
  end.

(** The pages of the document main() writes, given the two generators after
    their initialisation and the random generator. *)
Definition main (py pu : Pythia) (rnd : TRandom) : list Page :=
  List.concat (snd (event_loop (nEvent cfg) 0 (mkState py pu rnd new_pTflow))).

(** ** Notions used to state the properties *)

(** The resonances main() identifies in an event record. *)
Definition resonances (ev : list Particle) : list Particle :=
  fst (fst (identify ev)).

(** The stable particles of an event record. *)
Definition finals (ev : list Particle) : list Particle :=
  filter Particle.isFinal ev.

(** The next event is generated and has exactly two resonances. *)
Definition valid_event (st : State) : bool :=
  let (ok, py) := next (pythia st) in
  ok && (List.length (resonances (event py)) =? 2)%nat.

(** The numbers of the valid events among [n] iterations of the event loop. *)
Fixpoint valid_events (n iEvent : nat) (st : State) : list nat :=
  match n with
  | O => []
  | S n' =>
      (if valid_event st then [iEvent] else [])
      ++ valid_events n' (S iEvent) (fst (event_body iEvent st))
  end.

(** The calls that draw the legend: its box, its markers and its texts
    (the only texts aligned with code 12, the only calls of drawMarker). *)
Definition is_legend_call (c : Call) : bool :=
  match c with
  | drawLegendBox _ _ _ _ => true
  | drawMarker _ _ _ _ _ => true
  | drawText _ _ _ (Some 12%Z) => true
  | _ => false
  end.

Definition legend_part (pg : Page) : list Call :=
  filter is_legend_call (pg_calls pg).

Definition is_particle_marker (c : Call) : bool :=
  match c with
  | drawParticleMarker _ _ _ _ => true
  | _ => false
  end.

(** The particle sequences handed to cluster sequences. *)
Definition clustered (c : Call) : list (list PseudoJet) :=
  match c with
  | ClusterSequence particles _ _ => [particles]
  | _ => []
  end.

(** The outcomes of [n] successive calls of [next] on the pileup generator. *)
Fixpoint pu_draws (n : nat) (pu : Pythia) : list (bool * Pythia) :=
  match n with
  | O => []
  | S n' => next pu :: pu_draws n' (snd (next pu))
  end.

(** Which pages of one event carry the legend: the first one only. *)
Definition legend_on_first_only (pages : list Page) : Prop :=
  map legend_part pages
  = match pages with
    | [] => []
    | _ :: rest => legend :: map (fun _ => []) rest
    end.

(** The test main() applies to find the two resonances. *)
Definition is_VH (p : Particle) : bool :=
  Particle.isResonance p && (Particle.status p =? -62)%Z.

(** The stable particles the successful pileup draws add. *)
Definition overlaid (n : nat) (pu : Pythia) : list Particle :=
  flat_map (fun r => finals (event (snd r))) (filter fst (pu_draws n pu)).

(** A page is identified by its event and its label. *)
Definition page_id (pg : Page) : nat * string := (pg_iEvent pg, pg_label pg).

(** The bin of the histogram a pseudojet falls into. *)
Definition in_cell (h : TH2D) (binx biny : Z) (c : PseudoJet) : bool :=
  ((binx =? TAxis.FindBin (TH2D.fXaxis h) (rap c))
   && (biny =? TAxis.FindBin (TH2D.fYaxis h) (phi_std c)))%Z.

(** The weights the flow loop adds to one bin, in the order of the loop. *)
Definition cell_deposit (h : TH2D) (binx biny : Z) (jet : Jet) (c : PseudoJet)
  : list Q :=
  if Qgtb (pt c) double_1e_50 then []
  else if in_cell h binx biny c then [pt (momentum jet)] else [].

Definition cell_deposits (h : TH2D) (binx biny : Z) (jets : list Jet) : list Q :=
  flat_map (fun jet => flat_map (cell_deposit h binx biny jet) (constituents jet))
           jets.

(** Every ghost probe of the grid is a constituent of at most one jet, and
    at most once. *)
Definition ghosts_owned_once (h : TH2D) (jets : list Jet) : Prop :=
  forall g, In g (ghosts h) ->
    (count_occ PseudoJet_eq_dec (flat_map constituents jets) g <= 1)%nat.

(** A jet owns the ghost of a grid cell. *)
Definition owns (h : TH2D) (jet : Jet) (binx biny : Z) : Prop :=
  (1 <= binx <= NyBins cfg)%Z /\ (1 <= biny <= NphiBins cfg)%Z /\
  In (ghost_at h binx biny) (constituents jet).

(** How often the ghost probe of a cell occurs in a list of constituents. *)
Definition owned (h : TH2D) (binx biny : Z) (cs : list PseudoJet) : nat :=
  if in_dec PseudoJet_eq_dec (ghost_at h binx biny) (ghosts h)
  then count_occ PseudoJet_eq_dec cs (ghost_at h binx biny)
  else O.

(** The histogram has the bin counts of the settings and non-empty axis
    ranges. *)
Definition grid_ok (h : TH2D) : Prop :=
  TAxis.fNbins (TH2D.fXaxis h) = NyBins cfg /\
  TAxis.fNbins (TH2D.fYaxis h) = NphiBins cfg /\
  TAxis.fXmin (TH2D.fXaxis h) < TAxis.fXmax (TH2D.fXaxis h) /\
  TAxis.fXmin (TH2D.fYaxis h) < TAxis.fXmax (TH2D.fYaxis h).

(** *** The event loop with the probe list built once

    The variant described by the specification: the ghost probes are
    constructed once, before the event loop, and every event reuses that
    list. *)

Definition event_body_reusing (probes : list PseudoJet) (iEvent : nat)
  (st : State) : State * list Page :=
  let (ok, py) := next (pythia st) in
  if negb ok then (mkState py (pythiaPU st) (gRandom st) (pTflow st), [])
  else
    let '(VH, ptcls_hs, stbl_ptcls) := identify (event py) in
    if negb (List.length VH =? 2)%nat
    then (mkState py (pythiaPU st) (gRandom st) (pTflow st), [])
    else
      let stbl_ptcls := stbl_ptcls ++ probes in
      let (n_inel, rnd) := Poisson (gRandom st) (mu cfg) in
      let '(pu, stbl_ptcls, ptcls_pu) :=
        pileup n_inel (pythiaPU st) stbl_ptcls [] in
      let pages :=
        algorithm_loop iEvent (event py) VH ptcls_hs ptcls_pu stbl_ptcls
                       true jetDefs in
      (mkState py pu rnd (exec_all (all_calls pages) (pTflow st)), pages).

Fixpoint event_loop_reusing (probes : list PseudoJet) (n iEvent : nat)
  (st : State) : State * list (list Page) :=
  match n with
  | O => (st, [])
  | S n' =>
      let (st1, pages) := event_body_reusing probes iEvent st in
      let (st2, rest) := event_loop_reusing probes n' (S iEvent) st1 in
      (st2, pages :: rest)
  end.

End Main.

(** ** The z range of a page (lines 192-193)

    After the flow loop main() calls
    [SetRangeUser(pTmin_jet/4, GetBinContent(GetMaximumBin())*4)] on the z
    axis. *)

(** The start value of the maximum search, [-FLT_MAX]. *)
Definition FLT_MAX : Q := 340282346638528859811704183484516925440.

(** The bins TH1::GetMaximumBin visits: the y bins 1 .. ny in the outer
    loop, the x bins 1 .. nx in the inner loop. *)
Definition scan_bins (h : TH2D) : list (Z * Z) :=
  flat_map (fun biny => map (fun binx => (binx, biny))
                            (bins (TAxis.fNbins (TH2D.fXaxis h))))
           (bins (TAxis.fNbins (TH2D.fYaxis h))).

(** The content of the bin (binx, biny). *)
Definition bin_content (h : TH2D) (bin : Z * Z) : Q :=
  TH2D.GetBinContent h (fst bin) (snd bin).

(** One step of the search: a bin replaces the maximum only when its content
    is strictly larger. *)
Definition GetMaximumBin_step (h : TH2D) (acc : Q * (Z * Z)) (bin : Z * Z)
  : Q * (Z * Z) :=
  let value := TH2D.GetBinContent h (fst bin) (snd bin) in
  if Qgtb value (fst acc) then (value, bin) else acc.

(** TH1::GetMaximumBin: the search starts at [-FLT_MAX] with bin (0, 0). *)
Definition GetMaximumBin (h : TH2D) : Z * Z :=
  snd (fold_left (GetMaximumBin_step h) (scan_bins h) (- FLT_MAX, (0, 0)%Z)).

(** The two arguments of SetRangeUser. *)
Definition z_range (cfg : Settings) (h : TH2D) : Q * Q :=
  let locm := GetMaximumBin h in
  (pTmin_jet cfg / 4, TH2D.GetBinContent h (fst locm) (snd locm) * 4).

(** The label main() assigns a jet definition under. *)
Definition label_of {Ext : Externals} (cfg : Settings) (alg : JetAlgorithm)
  : string :=
  match alg with
  | kt_algorithm => kt_label cfg
  | antikt_algorithm => antikt_label cfg
  | cambridge_algorithm => cambridge_label
  end.

Definition is_particle_text (c : Call) : bool :=
  match c with
  | drawParticleText _ _ => true
  | _ => false
  end.

Definition is_histogram_call (c : Call) : bool :=
  match c with
  | Reset => true
  | Fill _ _ _ => true
  | _ => false
  end.

(** ** Replayed runs

    A generator that replays a prepared list of outcomes ([None]: the call
    to [next] fails), a random generator that replays prepared Poisson
    draws, and a cluster sequence that hands back prepared jets.  They give
    the externals concrete values for the examples below. *)

Module Sample.

Definition Replay : Type := list (option (list Particle)) * list Particle.

Definition replay_next (s : Replay) : bool * Replay :=
  match fst s with
  | [] => (false, s)
  | None :: rest => (false, (rest, snd s))
  | Some ev :: rest => (true, (rest, ev))
  end.

Definition replay_Poisson (draws : list nat) (mean : Q) : nat * list nat :=
  match draws with
  | [] => (O, [])
  | n :: rest => (n, rest)
  end.

(** The sample momenta lie along the x axis (py = 0, pz = 0, px > 0), where
    pt = |px|, the rapidity is 0 and the azimuth is 0; the three functions
    below are exact there. *)
Definition externals (jets : list Jet) : Externals := {|
  Pythia := Replay;
  next := replay_next;
  event := snd;
  TRandom := list nat;
  Poisson := replay_Poisson;
  pt_of := fun px py _ _ => Qabs px + Qabs py;
  rap_of := fun _ _ pz _ => pz;
  phi_std_of := fun _ py _ _ => py;
  inclusive_jets := fun _ _ _ => jets;
  to_string := fun _ => "0.400000"%string;
  Form := fun fmt _ => fmt
|}.

(** A particle of transverse momentum [pT] along the x axis. *)
Definition ptcl (resonance : bool) (status : Z) (final : bool)
  (pT charge : Q) (d1 d2 : nat) : Particle :=
  Particle.mk resonance status final pT 0 0 pT 0 pT charge d1 d2.

Definition W : Particle := ptcl true (-62) false 120 1 2 3.
Definition H : Particle := ptcl true (-62) false 150 0 4 5.
Definition pi_plus : Particle := ptcl false 83 true 30 1 0 0.
Definition pi_minus : Particle := ptcl false 83 true 20 (-1) 0 0.
Definition K_long : Particle := ptcl false 83 true 10 0 0 0.
Definition soft_pion : Particle := ptcl false 83 true 0.5 1 0 0.

(** An event with the two resonances and one with a single resonance. *)
Definition WH_event : list Particle :=
  [W; H; pi_plus; pi_minus; K_long; pi_plus; soft_pion].
Definition W_event : list Particle := [W; pi_plus; pi_minus].
Definition minbias : list Particle := [pi_minus; soft_pion; K_long].

(** A small grid, 4 x 4 bins on [-4, 4] x [-Pi, Pi], with the hard-coded
    thresholds and switches. *)
Definition small (numberOfEvents : nat) : Settings := {|
  pTmin_jet := 25;
  pTmin_hadron := 1;
  yMax := 4;
  mu := 60;
  colHS := kBlack; colPos := kRed; colNeg := kBlue;
  colNeut := kGreen + 3; colPU := kGray + 1;
  doAntik_t := true; dok_t := true; doCambridge_Aachen := false;
  R := 0.4;
  NyBins := 4; NphiBins := 4;
  phiMax := Pi;
  nEvent := numberOfEvents
|}.

(** The histogram of the small grid. *)
Definition grid : TH2D := new_pTflow (small 1).

(** A jet of pT 50 made of one pion and the ghosts of the cells (1,1),
    (1,2) and (2,1). *)
Definition jet50 : Jet :=
  mkJet (reset_momentum_PtYPhiM 50 0 0 0)
        [ghost_at grid 1 1; PxPyPzE 30 0 0 30; ghost_at grid 1 2;
         ghost_at grid 2 1].

(** Two jets that both hold the ghost of the cell (1,1). *)
Definition jet_a : Jet :=
  mkJet (reset_momentum_PtYPhiM 50 0 0 0) [ghost_at grid 1 1].
Definition jet_b : Jet :=
  mkJet (reset_momentum_PtYPhiM 30 0 0 0) [ghost_at grid 1 1].

(** A jet of pT 50 that holds no ghost but a particle with a transverse
    momentum of 1e-60 along the x axis. *)
Definition jet_soft : Jet :=
  mkJet (reset_momentum_PtYPhiM 50 0 0 0) [PxPyPzE 1e-60 0 0 1e-60].

(** A run whose first event has a single resonance. *)
Definition start : State (Ext := externals []) :=
  mkState (Ext := externals [])
          ([Some W_event; Some WH_event], []) ([Some minbias], []) [2%nat] grid.

(** A run whose first call of [next] fails, and one whose first event is
    rendered with three pileup draws of which the second fails. *)
Definition start_failing : State (Ext := externals []) :=
  mkState (Ext := externals [])
          ([None; Some WH_event], []) ([Some minbias], []) [2%nat] grid.

Definition start_valid : State (Ext := externals []) :=
  mkState (Ext := externals [])
          ([Some WH_event], [])
          ([Some minbias; None; Some minbias; Some minbias], [])
          [3%nat; 1%nat] grid.

End Sample.

(** * Properties *)

(** ** The jet-definition map *)

Section StdMapFacts.
Variable V : Type.

Lemma assign_keys_In (m : StdMap.t V) (k : string) (v : V) (k' : string) :
  In k' (StdMap.keys (StdMap.assign m k v)) <-> k' = k \/ In k' (StdMap.keys m).
Proof.
  induction m as [|[k0 v0] m IH]; simpl.
  - intuition.
  - destruct (String.compare k k0) eqn:Hc; simpl.
    + apply String.compare_eq_iff in Hc. subst k0. intuition.
    + intuition.
    + unfold StdMap.keys in IH. rewrite IH. intuition.
Qed.

Lemma HdRel_assign (a : string) (m : StdMap.t V) (k : string) (v : V) :
  HdRel StdMap.lt a (StdMap.keys m) -> StdMap.lt a k ->
  HdRel StdMap.lt a (StdMap.keys (StdMap.assign m k v)).
Proof.
  intros Hm Hk. destruct m as [|[k0 v0] m]; simpl.
  - constructor. exact Hk.
  - destruct (String.compare k k0); simpl; constructor; try exact Hk.
    inversion Hm; assumption.
Qed.

Lemma assign_sorted (m : StdMap.t V) (k : string) (v : V) :
  Sorted StdMap.lt (StdMap.keys m) ->
  Sorted StdMap.lt (StdMap.keys (StdMap.assign m k v)).
Proof.
  induction m as [|[k0 v0] m IH]; simpl; intro Hs.
  - repeat constructor.
  - inversion Hs as [|? ? Hs' Hhd]; subst.
    destruct (String.compare k k0) eqn:Hc; simpl.
    + apply String.compare_eq_iff in Hc. subst k0. constructor; assumption.
    + constructor; [exact Hs | constructor; exact Hc].
    + constructor.
      * apply IH. exact Hs'.
      * apply HdRel_assign; [exact Hhd |].
        unfold StdMap.lt. rewrite String.compare_antisym, Hc. reflexivity.
Qed.

End StdMapFacts.

Section Order.
Context {Ext : Externals}.
Variable cfg : Settings.

Lemma jetDefs_sorted : Sorted StdMap.lt (StdMap.keys (jetDefs cfg)).
Proof.
  unfold jetDefs.
  destruct (doAntik_t cfg), (dok_t cfg), (doCambridge_Aachen cfg);
    repeat apply assign_sorted; constructor.
Qed.

Lemma jetDefs_keys (l : string) :
  In l (StdMap.keys (jetDefs cfg)) <-> In l (configured_labels cfg).
Proof.
  unfold jetDefs, configured_labels.
  destruct (doAntik_t cfg), (dok_t cfg), (doCambridge_Aachen cfg);
    repeat rewrite assign_keys_In; simpl; intuition.
Qed.

Lemma algorithm_loop_ids iEvent ev VH ptcls_hs ptcls_pu stbl_ptcls first defs :
  map page_id
      (algorithm_loop cfg iEvent ev VH ptcls_hs ptcls_pu stbl_ptcls first defs)
  = map (pair iEvent) (StdMap.keys defs).
Proof.
  revert first. induction defs as [|d defs IH]; intro first; simpl.
  - reflexivity.
  - unfold StdMap.keys in IH. rewrite IH. reflexivity.
Qed.

Lemma event_body_ids iEvent st :
  map page_id (snd (event_body cfg iEvent st))
  = if valid_event st then map (pair iEvent) (StdMap.keys (jetDefs cfg)) else [].
Proof.
  unfold event_body, valid_event, resonances.
  destruct (next (pythia st)) as [ok py]. destruct ok; simpl; [|reflexivity].
  destruct (identify (event py)) as [[VH ptcls_hs] stbl_ptcls]. simpl.
  destruct (List.length VH =? 2)%nat; simpl; [|reflexivity].
  destruct (Poisson (gRandom st) (mu cfg)) as [n_inel rnd].
  destruct (pileup n_inel (pythiaPU st) _ []) as [[pu stbl] ptcls_pu].
  simpl. apply algorithm_loop_ids.
Qed.

Lemma event_loop_ids n : forall iEvent st,
  map page_id (List.concat (snd (event_loop cfg n iEvent st)))
  = flat_map (fun e => map (pair e) (StdMap.keys (jetDefs cfg)))
             (valid_events cfg n iEvent st).
Proof.
  induction n as [|n IH]; intros iEvent st; simpl.
  - reflexivity.
  - pose proof (event_body_ids iEvent st) as Hb.
    destruct (event_body cfg iEvent st) as [st1 pages]. simpl in *.
    specialize (IH (S iEvent) st1).
    destruct (event_loop cfg n (S iEvent) st1) as [st2 rest]. simpl in *.
    rewrite map_app, Hb, IH, flat_map_app.
    destruct (valid_event st); simpl; [rewrite app_nil_r|]; reflexivity.
Qed.

Lemma valid_events_bounds n : forall iEvent st e,
  In e (valid_events cfg n iEvent st) -> (iEvent <= e)%nat.
Proof.
  induction n as [|n IH]; intros iEvent st e; simpl.
  - intros [].
  - rewrite in_app_iff. intros [He|He].
    + destruct (valid_event st); simpl in He; [|contradiction].
      destruct He as [<-|[]]. apply Nat.le_refl.
    + apply IH in He. lia.
Qed.

Lemma valid_events_sorted n : forall iEvent st,
  Sorted Nat.lt (valid_events cfg n iEvent st).
Proof.
  induction n as [|n IH]; intros iEvent st; simpl.
  - constructor.
  - specialize (IH (S iEvent) (fst (event_body cfg iEvent st))).
    destruct (valid_event st); simpl; [|exact IH].
    constructor; [exact IH|].
    pose proof (valid_events_bounds n (S iEvent)
                  (fst (event_body cfg iEvent st))) as Hb.
    destruct (valid_events cfg n (S iEvent) (fst (event_body cfg iEvent st)))
      as [|e l]; constructor.
    specialize (Hb e (or_introl eq_refl)). lia.
Qed.

(** C1, as the code has it: the pages come event by event, in the order in
    which the events are generated, and within an event in ascending order
    of the labels, the iteration order of [std::map], whatever the order in
    which the jet definitions were assigned.  Labels "A" and "B" are iterated
    as A, B in either order of assignment. *)
Theorem pages_in_label_order :
  forall n iEvent st,
    map page_id (List.concat (snd (event_loop cfg n iEvent st)))
    = flat_map (fun e => map (pair e) (StdMap.keys (jetDefs cfg)))
               (valid_events cfg n iEvent st)
    /\ Sorted Nat.lt (valid_events cfg n iEvent st)
    /\ Sorted StdMap.lt (StdMap.keys (jetDefs cfg))
    /\ (forall l, In l (StdMap.keys (jetDefs cfg)) <-> In l (configured_labels cfg))
    /\ (forall a b : JetDefinition,
          StdMap.keys (StdMap.assign (StdMap.assign StdMap.empty "A" a) "B" b)
          = ["A"; "B"]%string
          /\ StdMap.keys (StdMap.assign (StdMap.assign StdMap.empty "B" b) "A" a)
             = ["A"; "B"]%string).
Proof.
  intros n iEvent st. split; [apply event_loop_ids|].
  split; [apply valid_events_sorted|].
  split; [apply jetDefs_sorted|].
  split; [apply jetDefs_keys|].
  intros a b. split; reflexivity.
Qed.

End Order.

(** C1 fails as stated: with the hard-coded switches the anti-kt definition
    is assigned before the kt one, but the pages of a valid event come with
    the kt page first. *)
Lemma pages_not_in_configured_order :
  map pg_label
      (main (Ext := Sample.externals []) (hard_coded 1)
            ([Some Sample.WH_event], []) ([], []) [])
  <> configured_labels (Ext := Sample.externals []) (hard_coded 1).
Proof.
  assert (Hl : map pg_label
      (main (Ext := Sample.externals []) (hard_coded 1)
            ([Some Sample.WH_event], []) ([], []) [])
    = map snd (map page_id
      (main (Ext := Sample.externals []) (hard_coded 1)
            ([Some Sample.WH_event], []) ([], []) []))).
  { rewrite map_map. reflexivity. }
  rewrite Hl. unfold main. rewrite event_loop_ids.
  lazy. discriminate.
Qed.

(** ** The loops that collect particles *)

Section Collect.
Context {Ext : Externals}.
Variable cfg : Settings.

Lemma identify_fold ev : forall VH ptcls_hs stbl_ptcls,
  fold_left identify_step ev (VH, ptcls_hs, stbl_ptcls)
  = (VH ++ filter is_VH ev, ptcls_hs ++ finals ev,
     stbl_ptcls ++ map PseudoJet_of (finals ev)).
Proof.
  induction ev as [|p ev IH]; intros VH ptcls_hs stbl_ptcls; simpl.
  - rewrite !app_nil_r. reflexivity.
  - unfold finals, is_VH in *.
    destruct (Particle.isResonance p && (Particle.status p =? -62)%Z),
      (Particle.isFinal p); simpl; rewrite IH;
      rewrite <- ?app_assoc; reflexivity.
Qed.

Lemma identify_spec ev :
  identify ev = (filter is_VH ev, finals ev, map PseudoJet_of (finals ev)).
Proof. unfold identify. rewrite identify_fold. reflexivity. Qed.

Lemma pileup_fold ev : forall stbl_ptcls ptcls_pu,
  fold_left pileup_step ev (stbl_ptcls, ptcls_pu)
  = (stbl_ptcls ++ map PseudoJet_of (finals ev), ptcls_pu ++ finals ev).
Proof.
  induction ev as [|p ev IH]; intros stbl_ptcls ptcls_pu; simpl.
  - rewrite !app_nil_r. reflexivity.
  - destruct (Particle.isFinal p); simpl; rewrite IH;
      rewrite <- ?app_assoc; reflexivity.
Qed.

Lemma flat_map_all_nil {A B : Type} (g : A -> list B) (l : list A) :
  (forall a, In a l -> g a = []) -> flat_map g l = [].
Proof.
  induction l as [|a l IH]; intro H; simpl; [reflexivity|].
  rewrite (H a (or_introl eq_refl)), IH; [reflexivity|].
  intros a' Hin. apply H. right. exact Hin.
Qed.

Lemma last_cons {A : Type} (l : list A) : forall x d : A,
  last (x :: l) d = last l x.
Proof.
  induction l as [|a l IH]; intros x d.
  - reflexivity.
  - change (last (x :: a :: l) d) with (last (a :: l) d).
    rewrite !IH. reflexivity.
Qed.

Lemma pileup_spec n : forall pu stbl_ptcls ptcls_pu,
  pileup n pu stbl_ptcls ptcls_pu
  = (last (map snd (pu_draws n pu)) pu,
     stbl_ptcls ++ map PseudoJet_of (overlaid n pu),
     ptcls_pu ++ overlaid n pu).
Proof.
  unfold overlaid.
  induction n as [|n IH]; intros pu stbl_ptcls ptcls_pu.
  - simpl. rewrite !app_nil_r. reflexivity.
  - cbn [pileup pu_draws map filter].
    destruct (next pu) as [ok pu'] eqn:Hn. cbn [fst snd].
    destruct ok; cbn [negb].
    + rewrite pileup_fold, IH. cbn [flat_map snd].
      rewrite last_cons, map_app, <- !app_assoc. reflexivity.
    + rewrite IH, last_cons. reflexivity.
Qed.




(** What the body of the event loop does, with the loops replaced by their
    results. *)
Lemma event_body_spec iEvent st :
  let py := snd (next (pythia st)) in
  let draw := Poisson (gRandom st) (mu cfg) in
  let ptcls_pu := overlaid (fst draw) (pythiaPU st) in
  let stbl_ptcls :=
    map PseudoJet_of (finals (event py)) ++ ghosts cfg (pTflow st)
    ++ map PseudoJet_of ptcls_pu in
  let pages :=
    algorithm_loop cfg iEvent (event py) (resonances (event py))
                   (finals (event py)) ptcls_pu stbl_ptcls true (jetDefs cfg) in
  event_body cfg iEvent st
  = if valid_event st
    then (mkState py (last (map snd (pu_draws (fst draw) (pythiaPU st)))
                           (pythiaPU st))
                  (snd draw) (exec_all (all_calls pages) (pTflow st)),
          pages)
    else (mkState py (pythiaPU st) (gRandom st) (pTflow st), []).
Proof.
  unfold event_body, valid_event, resonances.
  destruct (next (pythia st)) as [ok py]. cbn [snd].
  destruct ok; cbn [negb andb]; [|reflexivity].
  rewrite identify_spec. cbn [fst snd].
  destruct (List.length (filter is_VH (event py)) =? 2)%nat; cbn [negb];
    [|reflexivity].
  destruct (Poisson (gRandom st) (mu cfg)) as [n_inel rnd]. cbn [fst snd].
  rewrite pileup_spec. cbn [app]. rewrite <- app_assoc. reflexivity.
Qed.

(** C5: an event whose number of identified resonances is not two is
    skipped.  It yields no page, hence no clustering and no drawing; the
    pileup generator, the random generator and the histogram are left as they
    were; and the event loop goes on with the next event. *)
Theorem invalid_event_skipped :
  forall iEvent st,
    fst (next (pythia st)) = true ->
    List.length (resonances (event (snd (next (pythia st))))) <> 2%nat ->
    let st' := mkState (snd (next (pythia st))) (pythiaPU st) (gRandom st)
                       (pTflow st) in
    event_body cfg iEvent st = (st', [])
    /\ all_calls (snd (event_body cfg iEvent st)) = []
    /\ forall n,
         event_loop cfg (S n) iEvent st
         = (fst (event_loop cfg n (S iEvent) st'),
            [] :: snd (event_loop cfg n (S iEvent) st')).
Proof.
  intros iEvent st Hok Hres st'.
  assert (Hb : event_body cfg iEvent st = (st', [])).
  { rewrite event_body_spec. unfold valid_event.
    destruct (next (pythia st)) as [ok py]. cbn [fst snd] in *. subst ok.
    apply Nat.eqb_neq in Hres. rewrite Hres. reflexivity. }
  split; [exact Hb|]. split; [rewrite Hb; reflexivity|].
  intro n. cbn [event_loop]. rewrite Hb.
  destruct (event_loop cfg n (S iEvent) st'). reflexivity.
Qed.


(** The calls of a page that are cluster sequences. *)
Lemma page_calls_clustered ev VH ptcls_hs ptcls_pu stbl_ptcls first jetDef :
  flat_map clustered
    (page_calls cfg ev VH ptcls_hs ptcls_pu stbl_ptcls first jetDef)
  = [stbl_ptcls].
Proof.
  assert (Hnil : forall (A : Type) (f : A -> list Call) (l : list A),
    (forall a c, In c (f a) -> clustered c = []) ->
    flat_map clustered (flat_map f l) = []).
  { intros A f l Hf. apply flat_map_all_nil. intros c Hin.
    apply in_flat_map in Hin. destruct Hin as [a [_ Hc]].
    apply (Hf a c Hc). }
  unfold page_calls, flow_calls. rewrite !flat_map_app.
  change (flat_map clustered (Reset :: ?l)) with (flat_map clustered l).
  rewrite (Hnil _ flow_jet), (Hnil _ (pu_marker cfg)),
    (Hnil _ (hs_marker cfg)), (Hnil _ (VH_text cfg ev)).
  - destruct first; reflexivity.
  - intros p c Hin. simpl in Hin. intuition; subst; reflexivity.
  - intros p c Hin. unfold hs_marker in Hin.
    destruct (shown cfg p); [|contradiction].
    destruct (Qgtb (Particle.charge p) 0);
      [|destruct (Qltb (Particle.charge p) 0)];
      simpl in Hin; intuition; subst; reflexivity.
  - intros p c Hin. unfold pu_marker in Hin.
    destruct (shown cfg p); simpl in Hin; intuition; subst; reflexivity.
  - intros jet c Hin. unfold flow_jet in Hin.
    apply in_flat_map in Hin. destruct Hin as [k [_ Hin]].
    unfold flow_constituent in Hin.
    destruct (Qgtb (pt k) double_1e_50); simpl in Hin; [contradiction|].
    destruct Hin as [<-|[]]. reflexivity.
Qed.

Lemma algorithm_loop_clustered iEvent ev VH ptcls_hs ptcls_pu stbl_ptcls defs :
  forall first,
  Forall (fun pg => flat_map clustered (pg_calls pg) = [stbl_ptcls])
    (algorithm_loop cfg iEvent ev VH ptcls_hs ptcls_pu stbl_ptcls first defs).
Proof.
  induction defs as [|d defs IH]; intro first; simpl; constructor.
  - simpl. apply page_calls_clustered.
  - apply IH.
Qed.

(** C8: within an event, every iteration of the algorithm loop clusters one
    and the same particle sequence, the one built before the loop from the
    stable hard-scatter particles, the ghost probes and the stable pileup
    particles. *)
Theorem same_pool_for_every_algorithm :
  forall iEvent st,
    let py := snd (next (pythia st)) in
    let n_inel := fst (Poisson (gRandom st) (mu cfg)) in
    let hs := map PseudoJet_of (finals (event py)) in
    let pu := map PseudoJet_of (overlaid n_inel (pythiaPU st)) in
    let pool := hs ++ ghosts cfg (pTflow st) ++ pu in
    Forall (fun pg => flat_map clustered (pg_calls pg) = [pool])
           (snd (event_body cfg iEvent st))
    /\ Permutation pool (hs ++ pu ++ ghosts cfg (pTflow st)).
Proof.
  intros iEvent st py n_inel hs pu pool. split.
  - rewrite event_body_spec. destruct (valid_event st); cbn [snd].
    + apply algorithm_loop_clustered.
    + constructor.
  - unfold pool. apply Permutation_app_head. apply Permutation_app_comm.
Qed.

End Collect.

(** ** Comparisons of doubles *)

Lemma Qgtb_lt (a b : Q) : Qgtb a b = true <-> b < a.
Proof.
  unfold Qgtb. rewrite negb_true_iff. split.
  - intro H. apply Qnot_le_lt. intro Hle.
    apply Qle_bool_iff in Hle. congruence.
  - intro H. destruct (Qle_bool a b) eqn:E; [|reflexivity].
    apply Qle_bool_iff in E. exfalso. exact (Qlt_not_le _ _ H E).
Qed.

Lemma Qgtb_le (a b : Q) : Qgtb a b = false <-> a <= b.
Proof.
  unfold Qgtb. rewrite negb_false_iff. apply Qle_bool_iff.
Qed.

Lemma Qltb_lt (a b : Q) : Qltb a b = true <-> a < b.
Proof. apply (Qgtb_lt b a). Qed.

Lemma Qltb_le (a b : Q) : Qltb a b = false <-> b <= a.
Proof. apply (Qgtb_le b a). Qed.

(** ** What a page draws *)

Lemma filter_flat_map_none {A B : Type} (f : B -> bool) (g : A -> list B)
  (l : list A) :
  (forall a b, In b (g a) -> f b = false) -> filter f (flat_map g l) = [].
Proof.
  intro H. induction l as [|a l IH]; simpl; [reflexivity|].
  rewrite filter_app, IH, app_nil_r.
  specialize (H a). induction (g a) as [|b bs IHb]; simpl; [reflexivity|].
  rewrite (H b (or_introl eq_refl)). apply IHb.
  intros b' Hin. apply H. right. exact Hin.
Qed.

Lemma filter_flat_map_all {A B : Type} (f : B -> bool) (g : A -> list B)
  (l : list A) :
  (forall a b, In b (g a) -> f b = true) ->
  filter f (flat_map g l) = flat_map g l.
Proof.
  intro H. induction l as [|a l IH]; simpl; [reflexivity|].
  rewrite filter_app, IH. f_equal.
  specialize (H a). induction (g a) as [|b bs IHb]; simpl; [reflexivity|].
  rewrite (H b (or_introl eq_refl)). f_equal. apply IHb.
  intros b' Hin. apply H. right. exact Hin.
Qed.

Section Pages.
Context {Ext : Externals}.
Variable cfg : Settings.

Lemma flow_jet_calls jet c :
  In c (flow_jet jet) -> exists x y w, c = Fill x y w.
Proof.
  unfold flow_jet. intro Hin. apply in_flat_map in Hin.
  destruct Hin as [k [_ Hin]]. unfold flow_constituent in Hin.
  destruct (Qgtb (pt k) double_1e_50); simpl in Hin; [contradiction|].
  destruct Hin as [<-|[]]. eauto.
Qed.

Lemma pu_marker_calls p c :
  In c (pu_marker cfg p) -> exists s col size, c = drawParticleMarker p s col size.
Proof.
  unfold pu_marker. destruct (shown cfg p); simpl; [|contradiction].
  intros [<-|[]]. eauto.
Qed.

Lemma hs_marker_calls p c :
  In c (hs_marker cfg p) -> exists s col size, c = drawParticleMarker p s col size.
Proof.
  unfold hs_marker. destruct (shown cfg p); [|contradiction].
  destruct (Qgtb (Particle.charge p) 0);
    [|destruct (Qltb (Particle.charge p) 0)]; simpl;
    intuition; subst; eauto.
Qed.

Lemma VH_text_calls ev p c :
  In c (VH_text cfg ev p) -> exists q col, c = drawParticleText q col.
Proof. simpl. intuition; subst; eauto. Qed.

Lemma page_calls_legend ev VH ptcls_hs ptcls_pu stbl_ptcls first jetDef :
  filter is_legend_call
    (page_calls cfg ev VH ptcls_hs ptcls_pu stbl_ptcls first jetDef)
  = if first then legend cfg else [].
Proof.
  unfold page_calls, flow_calls. rewrite !filter_app.
  change (filter is_legend_call (Reset :: ?l)) with (filter is_legend_call l).
  rewrite (filter_flat_map_none _ flow_jet),
    (filter_flat_map_none _ (pu_marker cfg)),
    (filter_flat_map_none _ (hs_marker cfg)),
    (filter_flat_map_none _ (VH_text cfg ev)).
  - destruct first; reflexivity.
  - intros p c Hin. apply VH_text_calls in Hin.
    destruct Hin as [q [col ->]]. reflexivity.
  - intros p c Hin. apply hs_marker_calls in Hin.
    destruct Hin as [s [col [size ->]]]. reflexivity.
  - intros p c Hin. apply pu_marker_calls in Hin.
    destruct Hin as [s [col [size ->]]]. reflexivity.
  - intros jet c Hin. apply flow_jet_calls in Hin.
    destruct Hin as [x [y [w ->]]]. reflexivity.
Qed.

Lemma algorithm_loop_legend iEvent ev VH ptcls_hs ptcls_pu stbl_ptcls defs :
  map legend_part
      (algorithm_loop cfg iEvent ev VH ptcls_hs ptcls_pu stbl_ptcls false defs)
  = map (fun _ => []) defs.
Proof.
  induction defs as [|d defs IH]; [reflexivity|].
  cbn [algorithm_loop map]. rewrite IH.
  unfold legend_part. cbn [pg_calls].
  rewrite page_calls_legend. reflexivity.
Qed.

Lemma event_body_legend iEvent st :
  legend_on_first_only cfg (snd (event_body cfg iEvent st)).
Proof.
  rewrite event_body_spec. unfold legend_on_first_only.
  destruct (valid_event st); cbn [snd]; [|reflexivity].
  destruct (jetDefs cfg) as [|d defs]; [reflexivity|].
  cbn [algorithm_loop map]. rewrite algorithm_loop_legend.
  unfold legend_part. cbn [pg_calls]. rewrite page_calls_legend.
  f_equal. clear d.
  induction defs as [|d defs IH]; [reflexivity|].
  cbn [algorithm_loop map]. f_equal. exact IH.
Qed.

(** C2, as the code has it: the flag [first] is set anew for every event, so
    the legend box, its markers and its texts are drawn on the first page
    of every event that is rendered, and on no other page of that event. *)
Theorem legend_on_first_page_of_each_event :
  forall n iEvent st,
    Forall (legend_on_first_only cfg) (snd (event_loop cfg n iEvent st)).
Proof.
  induction n as [|n IH]; intros iEvent st; cbn [event_loop].
  - constructor.
  - pose proof (event_body_legend iEvent st) as Hb.
    destruct (event_body cfg iEvent st) as [st1 pages].
    specialize (IH (S iEvent) st1).
    destruct (event_loop cfg n (S iEvent) st1) as [st2 rest].
    constructor; assumption.
Qed.

Lemma page_calls_markers ev VH ptcls_hs ptcls_pu stbl_ptcls first jetDef :
  filter is_particle_marker
    (page_calls cfg ev VH ptcls_hs ptcls_pu stbl_ptcls first jetDef)
  = flat_map (pu_marker cfg) ptcls_pu ++ flat_map (hs_marker cfg) ptcls_hs.
Proof.
  unfold page_calls, flow_calls. rewrite !filter_app.
  change (filter is_particle_marker (Reset :: ?l))
    with (filter is_particle_marker l).
  rewrite (filter_flat_map_none _ flow_jet),
    (filter_flat_map_all _ (pu_marker cfg)),
    (filter_flat_map_all _ (hs_marker cfg)),
    (filter_flat_map_none _ (VH_text cfg ev)).
  - destruct first; simpl; rewrite app_nil_r; reflexivity.
  - intros p c Hin. apply VH_text_calls in Hin.
    destruct Hin as [q [col ->]]. reflexivity.
  - intros p c Hin. apply hs_marker_calls in Hin.
    destruct Hin as [s [col [size ->]]]. reflexivity.
  - intros p c Hin. apply pu_marker_calls in Hin.
    destruct Hin as [s [col [size ->]]]. reflexivity.
  - intros jet c Hin. apply flow_jet_calls in Hin.
    destruct Hin as [x [y [w ->]]]. reflexivity.
Qed.

(** A particle is shown iff |y| < yMax and pT > pTmin_hadron. *)
Lemma shown_iff p :
  shown cfg p = true
  <-> Qabs (Particle.y p) < yMax cfg /\ pTmin_hadron cfg < Particle.pT p.
Proof.
  unfold shown. rewrite andb_true_iff, Qltb_lt, Qgtb_lt. reflexivity.
Qed.

(** C7, as the code has it: the particle markers of a page are those of the
    pileup particles followed by those of the hard-scatter particles, in
    order.  A particle outside the cuts gets none.  Inside the cuts, a
    pileup particle gets one marker (style 24 if charged, 25 if neutral), a
    charged hard-scatter particle one marker (style 5, coloured by the sign
    of the charge), and a neutral hard-scatter particle two markers, style
    21 under style 5. *)
Theorem markers_of_a_page :
  forall ev VH ptcls_hs ptcls_pu stbl_ptcls first jetDef,
    filter is_particle_marker
      (page_calls cfg ev VH ptcls_hs ptcls_pu stbl_ptcls first jetDef)
    = flat_map (pu_marker cfg) ptcls_pu ++ flat_map (hs_marker cfg) ptcls_hs
    /\ forall p,
         let qualifies :=
           Qabs (Particle.y p) < yMax cfg /\ pTmin_hadron cfg < Particle.pT p in
         (~ qualifies -> pu_marker cfg p = [] /\ hs_marker cfg p = [])
         /\ (qualifies -> ~ Particle.charge p == 0 ->
             pu_marker cfg p = [drawParticleMarker p 24 (colPU cfg) 0.4])
         /\ (qualifies -> Particle.charge p == 0 ->
             pu_marker cfg p = [drawParticleMarker p 25 (colPU cfg) 0.4])
         /\ (qualifies -> 0 < Particle.charge p ->
             hs_marker cfg p = [drawParticleMarker p 5 (colPos cfg) 0.8])
         /\ (qualifies -> Particle.charge p < 0 ->
             hs_marker cfg p = [drawParticleMarker p 5 (colNeg cfg) 0.8])
         /\ (qualifies -> Particle.charge p == 0 ->
             hs_marker cfg p = [drawParticleMarker p 21 (colNeut cfg) 0.4;
                                drawParticleMarker p 5 (colNeut cfg) 0.8]).
Proof.
  intros ev VH ptcls_hs ptcls_pu stbl_ptcls first jetDef.
  split; [apply page_calls_markers|].
  intros p qualifies. unfold pu_marker, hs_marker.
  pose proof (shown_iff p) as Hs. fold qualifies in Hs.
  destruct (shown cfg p).
  - refine (conj _ (conj _ (conj _ (conj _ (conj _ _))))).
    + intro Hn. exfalso. apply Hn, Hs. reflexivity.
    + intros _ Hc. destruct (Qeq_bool (Particle.charge p) 0) eqn:E;
        [apply Qeq_bool_iff in E; contradiction | reflexivity].
    + intros _ Hc. apply Qeq_bool_iff in Hc. rewrite Hc. reflexivity.
    + intros _ Hc. apply Qgtb_lt in Hc. rewrite Hc. reflexivity.
    + intros _ Hc.
      assert (Hg : Qgtb (Particle.charge p) 0 = false)
        by (apply Qgtb_le, Qlt_le_weak, Hc).
      apply Qltb_lt in Hc. rewrite Hg, Hc. reflexivity.
    + intros _ Hc.
      assert (Hg : Qgtb (Particle.charge p) 0 = false)
        by (apply Qgtb_le; rewrite Hc; apply Qle_refl).
      assert (Hl : Qltb (Particle.charge p) 0 = false)
        by (apply Qltb_le; rewrite Hc; apply Qle_refl).
      rewrite Hg, Hl. reflexivity.
  - assert (Hq : ~ qualifies) by (intro Hq; apply Hs in Hq; discriminate).
    refine (conj _ (conj _ (conj _ (conj _ (conj _ _)))));
      try (intros Hn; contradiction).
    intros _. split; reflexivity.
Qed.

End Pages.

(** C2 fails as stated: in a run with two rendered events the legend is
    drawn again on the third page, the first page of the second event. *)
Lemma legend_drawn_again_for_second_event :
  ~ (forall k pg,
       nth_error
         (main (Ext := Sample.externals []) (Sample.small 2)
               ([Some Sample.WH_event; Some Sample.WH_event], []) ([], []) [])
         k = Some pg ->
       k <> 0%nat -> legend_part pg = []).
Proof.
  intro H.
  assert (Hpg : exists pg,
    nth_error
      (main (Ext := Sample.externals []) (Sample.small 2)
            ([Some Sample.WH_event; Some Sample.WH_event], []) ([], []) [])
      2 = Some pg /\ legend_part pg <> []).
  { eexists. split; [vm_compute; reflexivity|]. vm_compute. discriminate. }
  destruct Hpg as [pg [Hk Hl]].
  apply Hl. apply (H 2%nat pg Hk). discriminate.
Qed.

(** C7 fails as stated: a single neutral hard-scatter particle inside the
    cuts is drawn with two markers. *)
Lemma neutral_particle_drawn_twice :
  List.length (filter (shown (Sample.small 1)) [Sample.K_long]) = 1%nat
  /\ List.length
       (filter is_particle_marker
          (page_calls (Ext := Sample.externals []) (Sample.small 1)
             [] [] [Sample.K_long] [] [] true
             ("A"%string, mkJetDefinition kt_algorithm 0.4 E_scheme Best)))
     = 2%nat.
Proof. split; vm_compute; reflexivity. Qed.

(** ** The axes of the histogram *)

Lemma int_of_double_floor (x : Q) : 0 <= x -> int_of_double x = Qfloor x.
Proof.
  destruct x as [n d]. unfold int_of_double, Qfloor, Qle. simpl.
  intro H. apply Z.quot_div_nonneg; lia.
Qed.

Lemma Qfloor_half (k : Z) : Qfloor (inject_Z k + (1 # 2)) = k.
Proof.
  unfold Qfloor, Qplus, inject_Z. simpl.
  symmetry. apply (Z.div_unique _ _ _ 1); lia.
Qed.

Lemma Qplus_0_l_eq (q : Q) : 0 + q = q.
Proof.
  destruct q as [n d]. unfold Qplus. simpl. rewrite Z.mul_1_r. reflexivity.
Qed.

Section Axis.
Variable a : TAxis.
Hypothesis HN : (0 < TAxis.fNbins a)%Z.
Hypothesis Hrange : TAxis.fXmin a < TAxis.fXmax a.

Lemma fNbins_pos : 0 < inject_Z (TAxis.fNbins a).
Proof. change 0 with (inject_Z 0). rewrite <- Zlt_Qlt. exact HN. Qed.

(** How far a bin centre lies from the lower edge, in bin widths. *)
Lemma center_offset (i : Z) :
  inject_Z (TAxis.fNbins a) * (TAxis.GetBinCenter a i - TAxis.fXmin a)
    / (TAxis.fXmax a - TAxis.fXmin a)
  == inject_Z (i - 1) + (1 # 2).
Proof.
  pose proof fNbins_pos as HN'. unfold TAxis.GetBinCenter.
  field. split; lra.
Qed.

(** The centre of bin [i] lies in bin [i]. *)
Lemma FindBin_GetBinCenter (i : Z) :
  (1 <= i <= TAxis.fNbins a)%Z ->
  TAxis.FindBin a (TAxis.GetBinCenter a i) = i.
Proof.
  intro Hi.
  pose proof (center_offset i) as Hoff. pose proof fNbins_pos as HN'.
  assert (Hi1 : 0 <= inject_Z (i - 1)).
  { change 0 with (inject_Z 0). rewrite <- Zle_Qle. lia. }
  assert (Hi2 : inject_Z (i - 1) + 1 <= inject_Z (TAxis.fNbins a)).
  { change 1 with (inject_Z 1). rewrite <- inject_Z_plus, <- Zle_Qle. lia. }
  set (c := TAxis.GetBinCenter a i) in *.
  set (t := inject_Z (TAxis.fNbins a) * (c - TAxis.fXmin a)
            / (TAxis.fXmax a - TAxis.fXmin a)) in *.
  assert (Hw : 0 < (TAxis.fXmax a - TAxis.fXmin a) / inject_Z (TAxis.fNbins a)).
  { apply Qlt_shift_div_l; lra. }
  set (w := (TAxis.fXmax a - TAxis.fXmin a) / inject_Z (TAxis.fNbins a)) in *.
  assert (Hc : c - TAxis.fXmin a == t * w).
  { unfold t, w. field. split; lra. }
  assert (Hhi : TAxis.fXmax a - TAxis.fXmin a == inject_Z (TAxis.fNbins a) * w).
  { unfold w. field. lra. }
  unfold TAxis.FindBin. fold c.
  assert (H1 : Qltb c (TAxis.fXmin a) = false).
  { apply Qltb_le.
    assert (0 <= t * w) by (apply Qmult_le_0_compat; lra). lra. }
  assert (H2 : Qltb c (TAxis.fXmax a) = true).
  { apply Qltb_lt.
    assert (t * w < inject_Z (TAxis.fNbins a) * w)
      by (apply Qmult_lt_compat_r; lra).
    lra. }
  rewrite H1, H2. cbn [negb]. fold t.
  rewrite int_of_double_floor by lra.
  rewrite (Qfloor_comp _ _ Hoff), Qfloor_half. lia.
Qed.

(** Distinct bins have distinct centres. *)
Lemma GetBinCenter_inj (i j : Z) :
  TAxis.GetBinCenter a i = TAxis.GetBinCenter a j -> i = j.
Proof.
  intro H. pose proof (center_offset i) as Hi. pose proof (center_offset j) as Hj.
  rewrite H in Hi. rewrite Hi in Hj.
  assert (Hq : inject_Z (i - 1) == inject_Z (j - 1)) by lra.
  unfold Qeq in Hq. simpl in Hq. lia.
Qed.

End Axis.

(** ** The histogram calls *)

Lemma exec_axes (h : TH2D) (c : Call) :
  TH2D.fXaxis (exec h c) = TH2D.fXaxis h
  /\ TH2D.fYaxis (exec h c) = TH2D.fYaxis h.
Proof. destruct c; split; reflexivity. Qed.

Lemma exec_all_axes (calls : list Call) : forall h,
  TH2D.fXaxis (exec_all calls h) = TH2D.fXaxis h
  /\ TH2D.fYaxis (exec_all calls h) = TH2D.fYaxis h.
Proof.
  unfold exec_all. induction calls as [|c calls IH]; intro h; simpl.
  - split; reflexivity.
  - destruct (IH (exec h c)) as [Hx Hy]. destruct (exec_axes h c) as [Hx' Hy'].
    split; congruence.
Qed.

Lemma In_bins (n k : Z) : In k (bins n) <-> (1 <= k <= n)%Z.
Proof.
  unfold bins. rewrite in_map_iff. split.
  - intros [m [<- Hm]]. apply in_seq in Hm. lia.
  - intro Hk. exists (Z.to_nat k). split; [lia|]. apply in_seq. lia.
Qed.

Lemma nth_error_bins (n : Z) (k : nat) :
  (k < Z.to_nat n)%nat -> nth_error (bins n) k = Some (Z.of_nat (S k)).
Proof.
  intro Hk. unfold bins.
  rewrite nth_error_map.
  rewrite (nth_error_nth' _ O) by (rewrite length_seq; exact Hk).
  rewrite seq_nth by exact Hk. reflexivity.
Qed.

Lemma nth_error_flat_map_uniform {A B : Type} (f : A -> list B) (m : nat)
  (l : list A) :
  (forall x, List.length (f x) = m) ->
  forall i j x, nth_error l i = Some x -> (j < m)%nat ->
  nth_error (flat_map f l) (i * m + j) = nth_error (f x) j.
Proof.
  intro Hlen. induction l as [|y l IH]; intros i j x Hi Hj.
  - destruct i; discriminate.
  - destruct i as [|i]; simpl in Hi.
    + injection Hi as ->. simpl.
      rewrite nth_error_app1 by (rewrite Hlen; exact Hj). reflexivity.
    + cbn [flat_map].
      rewrite nth_error_app2 by (rewrite Hlen; simpl; lia).
      rewrite Hlen. replace (S i * m + j - m)%nat with (i * m + j)%nat
        by (simpl; lia).
      apply IH; assumption.
Qed.

Lemma flat_map_ext_In {A B : Type} (f g : A -> list B) (l : list A) :
  (forall a, In a l -> f a = g a) -> flat_map f l = flat_map g l.
Proof.
  induction l as [|a l IH]; intro H; simpl; [reflexivity|].
  rewrite (H a (or_introl eq_refl)), IH; [reflexivity|].
  intros a' Hin. apply H. right. exact Hin.
Qed.

Lemma length_flat_map_uniform {A B : Type} (f : A -> list B) (m : nat)
  (l : list A) :
  (forall x, List.length (f x) = m) ->
  List.length (flat_map f l) = (List.length l * m)%nat.
Proof.
  intro Hlen. induction l as [|x l IH]; simpl; [reflexivity|].
  rewrite length_app, IH, Hlen. reflexivity.
Qed.

(** ** The ghost probes *)

Section Ghosts.
Context {Ext : Externals}.
Variable cfg : Settings.

Lemma ghosts_axes (h h' : TH2D) :
  TH2D.fXaxis h' = TH2D.fXaxis h -> TH2D.fYaxis h' = TH2D.fYaxis h ->
  ghosts cfg h' = ghosts cfg h.
Proof.
  intros Hx Hy. unfold ghosts, ghost_at. rewrite Hx, Hy. reflexivity.
Qed.

Lemma In_ghosts (h : TH2D) (g : PseudoJet) :
  In g (ghosts cfg h)
  <-> exists iy iphi, (1 <= iy <= NyBins cfg)%Z
                      /\ (1 <= iphi <= NphiBins cfg)%Z
                      /\ g = ghost_at h iy iphi.
Proof.
  unfold ghosts. rewrite in_flat_map. split.
  - intros [iy [Hy Hin]]. apply in_map_iff in Hin.
    destruct Hin as [iphi [<- Hphi]].
    exists iy, iphi. rewrite In_bins in Hy, Hphi. auto.
  - intros [iy [iphi [Hy [Hphi ->]]]]. exists iy.
    rewrite In_bins. split; [exact Hy|]. apply in_map. apply In_bins. exact Hphi.
Qed.

Lemma ghosts_length (h : TH2D) :
  List.length (ghosts cfg h)
  = (Z.to_nat (NyBins cfg) * Z.to_nat (NphiBins cfg))%nat.
Proof.
  unfold ghosts.
  rewrite (length_flat_map_uniform _ (Z.to_nat (NphiBins cfg))).
  - unfold bins. rewrite length_map, length_seq. reflexivity.
  - intro iy. unfold bins. rewrite !length_map, length_seq. reflexivity.
Qed.

Lemma ghosts_nth (h : TH2D) (iy iphi : Z) :
  (1 <= iy <= NyBins cfg)%Z -> (1 <= iphi <= NphiBins cfg)%Z ->
  nth_error (ghosts cfg h)
            (Z.to_nat (iy - 1) * Z.to_nat (NphiBins cfg) + Z.to_nat (iphi - 1))
  = Some (ghost_at h iy iphi).
Proof.
  intros Hy Hphi. unfold ghosts.
  assert (Hlen : forall x,
    List.length (map (fun iphi => ghost_at h x iphi) (bins (NphiBins cfg)))
    = Z.to_nat (NphiBins cfg)).
  { intro x. unfold bins. rewrite !length_map, length_seq. reflexivity. }
  rewrite (nth_error_flat_map_uniform _ _ _ Hlen _ _ iy).
  - rewrite nth_error_map, nth_error_bins by lia. simpl. do 2 f_equal. lia.
  - rewrite nth_error_bins by lia. f_equal. lia.
  - lia.
Qed.

Lemma event_body_axes iEvent (st : State) :
  TH2D.fXaxis (pTflow (fst (event_body cfg iEvent st))) = TH2D.fXaxis (pTflow st)
  /\ TH2D.fYaxis (pTflow (fst (event_body cfg iEvent st)))
     = TH2D.fYaxis (pTflow st).
Proof.
  rewrite event_body_spec. destruct (valid_event st); cbn [fst pTflow].
  - apply exec_all_axes.
  - split; reflexivity.
Qed.

Lemma event_body_reusing_eq iEvent (st : State) :
  event_body cfg iEvent st
  = event_body_reusing cfg (ghosts cfg (pTflow st)) iEvent st.
Proof. reflexivity. Qed.

Lemma event_loop_reusing_eq n : forall iEvent st,
  event_loop cfg n iEvent st
  = event_loop_reusing cfg (ghosts cfg (pTflow st)) n iEvent st.
Proof.
  induction n as [|n IH]; intros iEvent st; cbn [event_loop event_loop_reusing].
  - reflexivity.
  - rewrite <- event_body_reusing_eq.
    pose proof (event_body_axes iEvent st) as [Hx Hy].
    destruct (event_body cfg iEvent st) as [st1 pages]. cbn [fst] in Hx, Hy.
    rewrite IH, (ghosts_axes _ _ Hx Hy). reflexivity.
Qed.

(** C9: the event loop, which rebuilds the ghost probes in every event from
    the axes of the histogram, does exactly what the loop that builds them
    once before the first event and reuses that list does.  The list is
    determined by the bin counts and the axes alone; it has one probe per
    grid cell, in row-major order, each at the centre of its cell and with
    transverse momentum 1e-100. *)
Theorem ghost_probes_fixed_for_the_run :
  forall n iEvent st,
    let probes := ghosts cfg (pTflow st) in
    event_loop cfg n iEvent st = event_loop_reusing cfg probes n iEvent st
    /\ (forall h,
          TH2D.fXaxis h = TH2D.fXaxis (pTflow st) ->
          TH2D.fYaxis h = TH2D.fYaxis (pTflow st) ->
          ghosts cfg h = probes)
    /\ List.length probes
       = (Z.to_nat (NyBins cfg) * Z.to_nat (NphiBins cfg))%nat
    /\ Forall (fun g => pt g = 1e-100) probes
    /\ (forall iy iphi,
          (1 <= iy <= NyBins cfg)%Z -> (1 <= iphi <= NphiBins cfg)%Z ->
          exists g,
            nth_error probes
              (Z.to_nat (iy - 1) * Z.to_nat (NphiBins cfg) + Z.to_nat (iphi - 1))
            = Some g
            /\ rap g = TAxis.GetBinCenter (TH2D.fXaxis (pTflow st)) iy
            /\ phi_std g = TAxis.GetBinCenter (TH2D.fYaxis (pTflow st)) iphi).
Proof.
  intros n iEvent st probes.
  split; [apply event_loop_reusing_eq|].
  split; [intros h Hx Hy; apply ghosts_axes; assumption|].
  split; [apply ghosts_length|].
  split.
  - apply Forall_forall. intros g Hg. apply In_ghosts in Hg.
    destruct Hg as [iy [iphi [_ [_ ->]]]]. reflexivity.
  - intros iy iphi Hy Hphi. exists (ghost_at (pTflow st) iy iphi).
    split; [apply ghosts_nth; assumption|]. split; reflexivity.
Qed.

(** ** Filling the pT flow *)

Lemma flow_constituent_le (jet : Jet) (c : PseudoJet) :
  pt c <= double_1e_50 ->
  flow_constituent jet c = [Fill (rap c) (phi_std c) (pt (momentum jet))].
Proof.
  intro H. unfold flow_constituent. apply Qgtb_le in H. rewrite H. reflexivity.
Qed.

Lemma flow_constituent_gt (jet : Jet) (c : PseudoJet) :
  double_1e_50 < pt c -> flow_constituent jet c = [].
Proof.
  intro H. unfold flow_constituent. apply Qgtb_lt in H. rewrite H. reflexivity.
Qed.

(** C10: whether a constituent is treated as a ghost is decided by its
    transverse momentum alone.  The jet's pT is filled at the constituent's
    (rap, phi_std) exactly when pt <= 1e-50, once per such constituent and in
    order, where 1e-50 is the double of the source, a little above 10^-50, so
    a constituent whose pt is exactly that double is filled; the ghosts,
    built with pt = 1e-100, pass the test, and so does any pseudojet made
    from a particle's four-momentum whose pt is that small. *)
Theorem ghost_test_is_numeric :
  forall jets : list Jet,
    flow_calls jets
    = Reset
      :: flat_map
           (fun jet =>
              map (fun c => Fill (rap c) (phi_std c) (pt (momentum jet)))
                  (filter (fun c => Qle_bool (pt c) double_1e_50)
                          (constituents jet)))
           jets
    /\ (forall jet c,
          (flow_constituent jet c
           = [Fill (rap c) (phi_std c) (pt (momentum jet))]
           <-> pt c <= double_1e_50)
          /\ (flow_constituent jet c = [] <-> double_1e_50 < pt c))
    /\ (1 / 10 ^ 50 < double_1e_50
        /\ forall jet c,
             pt c = double_1e_50 ->
             flow_constituent jet c
             = [Fill (rap c) (phi_std c) (pt (momentum jet))])
    /\ (forall jet h iy iphi,
          pt (ghost_at h iy iphi) = 1e-100
          /\ flow_constituent jet (ghost_at h iy iphi)
             = [Fill (TAxis.GetBinCenter (TH2D.fXaxis h) iy)
                     (TAxis.GetBinCenter (TH2D.fYaxis h) iphi)
                     (pt (momentum jet))])
    /\ (forall jet px py pz E,
          pt_of px py pz E <= double_1e_50 ->
          flow_constituent jet (PxPyPzE px py pz E)
          = [Fill (rap_of px py pz E) (phi_std_of px py pz E)
                  (pt (momentum jet))]).
Proof.
  intro jets. split.
  { unfold flow_calls. f_equal. apply flat_map_ext. intro jet.
    unfold flow_jet. induction (constituents jet) as [|c cs IH]; simpl.
    - reflexivity.
    - rewrite IH. unfold flow_constituent, Qgtb.
      destruct (Qle_bool (pt c) double_1e_50); reflexivity. }
  split.
  { intros jet c. split; split.
    - intro H. unfold flow_constituent in H.
      destruct (Qgtb (pt c) double_1e_50) eqn:E; [discriminate|].
      apply Qgtb_le. exact E.
    - apply flow_constituent_le.
    - intro H. unfold flow_constituent in H.
      destruct (Qgtb (pt c) double_1e_50) eqn:E; [|discriminate].
      apply Qgtb_lt. exact E.
    - apply flow_constituent_gt. }
  split.
  { split.
    - apply Qltb_lt. vm_compute. reflexivity.
    - intros jet c Hc. apply flow_constituent_le. rewrite Hc. apply Qle_refl. }
  split.
  { intros jet h iy iphi. split; [reflexivity|].
    apply flow_constituent_le. apply Qle_bool_iff. vm_compute. reflexivity. }
  intros jet px py pz E H. apply (flow_constituent_le jet (PxPyPzE px py pz E)).
  exact H.
Qed.

End Ghosts.

Section Flow.
Context {Ext : Externals}.
Variable cfg : Settings.
Variable h : TH2D.
Variables binx biny : Z.

Lemma exec_all_app (l1 l2 : list Call) (h0 : TH2D) :
  exec_all (l1 ++ l2) h0 = exec_all l2 (exec_all l1 h0).
Proof. apply fold_left_app. Qed.

Lemma flow_constituents_content (jet : Jet) (cs : list PseudoJet) :
  forall h0,
    TH2D.fXaxis h0 = TH2D.fXaxis h -> TH2D.fYaxis h0 = TH2D.fYaxis h ->
    TH2D.GetBinContent (exec_all (flat_map (flow_constituent jet) cs) h0)
                       binx biny
    = fold_left Qplus (flat_map (cell_deposit h binx biny jet) cs)
                (TH2D.GetBinContent h0 binx biny).
Proof.
  induction cs as [|c cs IH]; intros h0 Hx Hy; [reflexivity|].
  cbn [flat_map]. rewrite exec_all_app, fold_left_app.
  unfold flow_constituent at 2, cell_deposit at 2.
  destruct (Qgtb (pt c) double_1e_50).
  - apply IH; assumption.
  - cbn [exec_all fold_left exec]. rewrite IH by assumption.
    f_equal. unfold TH2D.Fill, TH2D.GetBinContent, in_cell. cbn [TH2D.content].
    rewrite Hx, Hy.
    destruct ((binx =? TAxis.FindBin (TH2D.fXaxis h) (rap c))
              && (biny =? TAxis.FindBin (TH2D.fYaxis h) (phi_std c)))%Z;
      reflexivity.
Qed.

Lemma flow_jets_content (jets : list Jet) :
  forall h0,
    TH2D.fXaxis h0 = TH2D.fXaxis h -> TH2D.fYaxis h0 = TH2D.fYaxis h ->
    TH2D.GetBinContent (exec_all (flat_map flow_jet jets) h0) binx biny
    = fold_left Qplus (cell_deposits h binx biny jets)
                (TH2D.GetBinContent h0 binx biny).
Proof.
  induction jets as [|jet jets IH]; intros h0 Hx Hy; [reflexivity|].
  unfold cell_deposits. cbn [flat_map].
  rewrite exec_all_app, fold_left_app.
  destruct (exec_all_axes (flow_jet jet) h0) as [Hx' Hy'].
  rewrite IH by congruence.
  unfold flow_jet. rewrite flow_constituents_content by assumption.
  reflexivity.
Qed.

(** The content of a bin after the flow loop: the weights filled into it,
    summed from zero in the order of the loop. *)
Lemma flow_content (jets : list Jet) :
  TH2D.GetBinContent (exec_all (flow_calls jets) h) binx biny
  = fold_left Qplus (cell_deposits h binx biny jets) 0.
Proof.
  unfold flow_calls. change (exec_all (Reset :: ?l) h)
    with (exec_all l (TH2D.Reset h)).
  rewrite flow_jets_content; reflexivity.
Qed.

Lemma cell_deposits_app (jets1 jets2 : list Jet) :
  cell_deposits h binx biny (jets1 ++ jets2)
  = cell_deposits h binx biny jets1 ++ cell_deposits h binx biny jets2.
Proof. unfold cell_deposits. apply flat_map_app. Qed.

(** C3, as the code has it: Fill adds.  The content of a cell after the
    flow loop is the sum of the weights filled into it, in jet order; when a
    later jet owns one ghost in a cell, its pT is added to what the earlier
    jets left there, whatever that was. *)
Theorem later_jet_adds_to_cell :
  forall jets : list Jet,
    TH2D.GetBinContent (exec_all (flow_calls jets) h) binx biny
    = fold_left Qplus (cell_deposits h binx biny jets) 0
    /\ forall jet,
         cell_deposits h binx biny [jet] = [pt (momentum jet)] ->
         TH2D.GetBinContent (exec_all (flow_calls (jets ++ [jet])) h) binx biny
         = TH2D.GetBinContent (exec_all (flow_calls jets) h) binx biny
           + pt (momentum jet).
Proof.
  intro jets. split; [apply flow_content|].
  intros jet Hjet.
  rewrite !flow_content, cell_deposits_app, fold_left_app, Hjet. reflexivity.
Qed.

(** *** One owner per ghost *)

Hypothesis Hgrid : grid_ok cfg h.

Lemma ghost_in_cell (iy iphi : Z) :
  (1 <= iy <= NyBins cfg)%Z -> (1 <= iphi <= NphiBins cfg)%Z ->
  in_cell h binx biny (ghost_at h iy iphi)
  = ((binx =? iy) && (biny =? iphi))%Z.
Proof.
  intros Hy Hphi. destruct Hgrid as [Nx [Ny [Rx Ry]]].
  unfold in_cell, ghost_at. cbn [rap phi_std].
  rewrite !FindBin_GetBinCenter; try assumption; try lia.
Qed.

(** What a constituent adds to the cell, when the constituents that are not
    ghost probes are above the threshold. *)
Lemma cell_deposit_ghost (jet : Jet) (c : PseudoJet) :
  (~ In c (ghosts cfg h) -> double_1e_50 < pt c) ->
  cell_deposit h binx biny jet c
  = if PseudoJet_eq_dec c (ghost_at h binx biny)
    then (if in_dec PseudoJet_eq_dec c (ghosts cfg h)
          then [pt (momentum jet)] else [])
    else [].
Proof.
  intro Hreal. unfold cell_deposit.
  destruct (in_dec PseudoJet_eq_dec c (ghosts cfg h)) as [Hin|Hout].
  - apply In_ghosts in Hin. destruct Hin as [iy [iphi [Hy [Hphi ->]]]].
    assert (Hpt : Qgtb (pt (ghost_at h iy iphi)) double_1e_50 = false).
    { apply Qgtb_le. apply Qle_bool_iff. vm_compute. reflexivity. }
    rewrite Hpt, ghost_in_cell by assumption.
    destruct (PseudoJet_eq_dec (ghost_at h iy iphi) (ghost_at h binx biny))
      as [Heq|Hne].
    + destruct Hgrid as [Nx [Ny [Rx Ry]]].
      pose proof (f_equal rap Heq) as Hcx.
      pose proof (f_equal phi_std Heq) as Hcy.
      cbn [rap phi_std ghost_at] in Hcx, Hcy.
      apply GetBinCenter_inj in Hcx; [|lia|exact Rx].
      apply GetBinCenter_inj in Hcy; [|lia|exact Ry].
      subst. rewrite !Z.eqb_refl. reflexivity.
    + destruct ((binx =? iy) && (biny =? iphi))%Z eqn:E; [|reflexivity].
      apply andb_true_iff in E. destruct E as [E1 E2].
      apply Z.eqb_eq in E1, E2. subst. contradiction.
  - apply Hreal in Hout. apply Qgtb_lt in Hout. rewrite Hout.
    destruct (PseudoJet_eq_dec c (ghost_at h binx biny)); reflexivity.
Qed.

End Flow.

Section Owner.
Context {Ext : Externals}.
Variable cfg : Settings.
Variable h : TH2D.
Variables binx biny : Z.
Hypothesis Hgrid : grid_ok cfg h.

Lemma jet_deposits (jet : Jet) (cs : list PseudoJet) :
  (forall c, In c cs -> ~ In c (ghosts cfg h) -> double_1e_50 < pt c) ->
  flat_map (cell_deposit h binx biny jet) cs
  = repeat (pt (momentum jet)) (owned cfg h binx biny cs).
Proof.
  unfold owned. induction cs as [|c cs IH]; intro Hreal.
  - destruct (in_dec _ _ _); reflexivity.
  - cbn [flat_map count_occ].
    rewrite IH by (intros c' Hc'; apply Hreal; right; exact Hc').
    rewrite (cell_deposit_ghost cfg h binx biny Hgrid jet c)
      by (apply Hreal; left; reflexivity).
    destruct (PseudoJet_eq_dec c (ghost_at h binx biny)) as [->|Hne].
    + destruct (in_dec PseudoJet_eq_dec (ghost_at h binx biny) (ghosts cfg h));
        reflexivity.
    + reflexivity.
Qed.

Lemma cell_deposits_owned (jets : list Jet) :
  (forall jet c, In jet jets -> In c (constituents jet) ->
                 ~ In c (ghosts cfg h) -> double_1e_50 < pt c) ->
  cell_deposits h binx biny jets
  = flat_map (fun jet => repeat (pt (momentum jet))
                                (owned cfg h binx biny (constituents jet)))
             jets.
Proof.
  intro Hreal. unfold cell_deposits. apply flat_map_ext_In.
  intros jet Hjet. apply jet_deposits. intros c Hc. apply (Hreal jet c Hjet Hc).
Qed.

Lemma no_owner_no_deposit (jets : list Jet) :
  (forall jet, In jet jets -> owned cfg h binx biny (constituents jet) = O) ->
  flat_map (fun jet => repeat (pt (momentum jet))
                              (owned cfg h binx biny (constituents jet)))
           jets = [].
Proof.
  intro H. apply flat_map_all_nil. intros jet Hjet. rewrite (H jet Hjet).
  reflexivity.
Qed.

Lemma owned_le_total (jets : list Jet) (jet : Jet) :
  In jet jets ->
  (owned cfg h binx biny (constituents jet)
   <= owned cfg h binx biny (flat_map constituents jets))%nat.
Proof.
  unfold owned. destruct (in_dec _ _ _); [|lia].
  induction jets as [|j0 jets IH]; [intros []|].
  intros [<-|Hin]; cbn [flat_map]; rewrite count_occ_app.
  - lia.
  - specialize (IH Hin). lia.
Qed.

Lemma one_owner_one_deposit (jets : list Jet) (jet : Jet) :
  (owned cfg h binx biny (flat_map constituents jets) <= 1)%nat ->
  In jet jets -> (0 < owned cfg h binx biny (constituents jet))%nat ->
  flat_map (fun j => repeat (pt (momentum j))
                            (owned cfg h binx biny (constituents j))) jets
  = [pt (momentum jet)].
Proof.
  induction jets as [|j0 jets IH]; intros Htot Hin Hown; [contradiction|].
  assert (Hsum : owned cfg h binx biny (flat_map constituents (j0 :: jets))
                 = (owned cfg h binx biny (constituents j0)
                    + owned cfg h binx biny (flat_map constituents jets))%nat).
  { unfold owned. destruct (in_dec _ _ _); [|reflexivity].
    cbn [flat_map]. apply count_occ_app. }
  rewrite Hsum in Htot. cbn [flat_map].
  destruct (owned cfg h binx biny (constituents j0)) as [|[|k]] eqn:E0; [| |lia].
  - destruct Hin as [->|Hin]; [lia|].
    cbn [repeat app]. apply IH; [lia|exact Hin|exact Hown].
  - assert (Hrest : forall j, In j jets -> owned cfg h binx biny (constituents j) = O).
    { intros j Hj. pose proof (owned_le_total jets j Hj). lia. }
    rewrite (no_owner_no_deposit jets Hrest). cbn [repeat app].
    destruct Hin as [->|Hin]; [reflexivity|].
    rewrite (Hrest jet Hin) in Hown. lia.
Qed.

Lemma owns_owned (jet : Jet) :
  owns cfg h jet binx biny <-> (0 < owned cfg h binx biny (constituents jet))%nat.
Proof.
  unfold owns, owned. split.
  - intros [Hx [Hy Hin]].
    destruct (in_dec _ _ _) as [_|Hout].
    + apply count_occ_In. exact Hin.
    + exfalso. apply Hout. apply In_ghosts. exists binx, biny. auto.
  - destruct (in_dec _ _ _) as [Hg|_]; [|lia].
    intro Hc. apply count_occ_In in Hc.
    apply In_ghosts in Hg. destruct Hg as [iy [iphi [Hy [Hphi Heq]]]].
    destruct Hgrid as [Nx [Ny [Rx Ry]]].
    pose proof (f_equal rap Heq) as Hcx.
    pose proof (f_equal phi_std Heq) as Hcy.
    cbn [rap phi_std ghost_at] in Hcx, Hcy.
    apply GetBinCenter_inj in Hcx; [|lia|exact Rx].
    apply GetBinCenter_inj in Hcy; [|lia|exact Ry].
    subst. auto.
Qed.

End Owner.

Section Cells.
Context {Ext : Externals}.
Variable cfg : Settings.

(** C4, with the condition the code needs: when every ghost probe is a
    constituent of at most one jet and every constituent that is not a ghost
    probe has pt > 1e-50 (the double of the source), the flow loop resets
    the histogram to zero before it fills, only ghost probes cause a Fill,
    every cell whose ghost is owned by a jet holds that jet's pT, and every
    other cell holds zero. *)
Theorem flow_cells_hold_owner_pT :
  forall (h : TH2D) (jets : list Jet),
    grid_ok cfg h ->
    ghosts_owned_once cfg h jets ->
    (forall jet c, In jet jets -> In c (constituents jet) ->
                   ~ In c (ghosts cfg h) -> double_1e_50 < pt c) ->
    (exists fills,
       flow_calls jets = Reset :: fills
       /\ (forall c, In c fills -> exists x y w, c = Fill x y w)
       /\ forall i j, TH2D.GetBinContent (exec h Reset) i j = 0)
    /\ (forall x y w,
          In (Fill x y w) (flow_calls jets) ->
          exists jet g,
            In jet jets /\ In g (constituents jet) /\ In g (ghosts cfg h)
            /\ x = rap g /\ y = phi_std g /\ w = pt (momentum jet))
    /\ (forall binx biny jet,
          In jet jets -> owns cfg h jet binx biny ->
          TH2D.GetBinContent (exec_all (flow_calls jets) h) binx biny
          = pt (momentum jet))
    /\ (forall binx biny,
          (forall jet, In jet jets -> ~ owns cfg h jet binx biny) ->
          TH2D.GetBinContent (exec_all (flow_calls jets) h) binx biny = 0).
Proof.
  intros h jets Hgrid Honce Hreal.
  split; [|split; [|split]].
  - exists (flat_map flow_jet jets). split; [reflexivity|]. split.
    + intros c Hc. apply in_flat_map in Hc. destruct Hc as [jet [_ Hc]].
      apply (flow_jet_calls jet c Hc).
    + reflexivity.
  - intros x y w Hin. destruct Hin as [Hin|Hin]; [discriminate|].
    apply in_flat_map in Hin. destruct Hin as [jet [Hjet Hin]].
    unfold flow_jet in Hin. apply in_flat_map in Hin.
    destruct Hin as [c [Hc Hin]]. unfold flow_constituent in Hin.
    destruct (Qgtb (pt c) double_1e_50) eqn:E; [contradiction|].
    destruct Hin as [Heq|[]]. injection Heq as <- <- <-.
    exists jet, c. repeat split; try assumption.
    destruct (in_dec PseudoJet_eq_dec c (ghosts cfg h)) as [Hg|Hg];
      [exact Hg|].
    apply (Hreal jet c Hjet Hc) in Hg. apply Qgtb_lt in Hg. congruence.
  - intros binx biny jet Hjet Hown.
    rewrite flow_content, (cell_deposits_owned cfg h binx biny Hgrid jets Hreal).
    rewrite (one_owner_one_deposit cfg h binx biny jets jet).
    + cbn [fold_left]. apply Qplus_0_l_eq.
    + unfold owned. destruct (in_dec _ _ _) as [Hg|_]; [|lia].
      apply Honce. exact Hg.
    + exact Hjet.
    + apply (owns_owned cfg h binx biny Hgrid). exact Hown.
  - intros binx biny Hnone.
    rewrite flow_content, (cell_deposits_owned cfg h binx biny Hgrid jets Hreal).
    rewrite no_owner_no_deposit; [reflexivity|].
    intros jet Hjet. specialize (Hnone jet Hjet).
    rewrite (owns_owned cfg h binx biny Hgrid) in Hnone. lia.
Qed.

End Cells.

(** C3 fails as stated: two jets of pT 50 and 30 that both hold the ghost of
    the cell (1,1) leave 80 in that cell, not the 30 of the later jet. *)
Lemma shared_cell_holds_the_sum :
  Sample.jet_a <> Sample.jet_b
  /\ owns (Sample.small 1) Sample.grid Sample.jet_a 1 1
  /\ owns (Sample.small 1) Sample.grid Sample.jet_b 1 1
  /\ TH2D.GetBinContent
       (exec_all (flow_calls (Ext := Sample.externals [])
                             [Sample.jet_a; Sample.jet_b]) Sample.grid) 1 1
     == 80
  /\ ~ TH2D.GetBinContent
         (exec_all (flow_calls (Ext := Sample.externals [])
                               [Sample.jet_a; Sample.jet_b]) Sample.grid) 1 1
       == pt (Ext := Sample.externals []) (momentum Sample.jet_b).
Proof.
  split; [discriminate|].
  split; [unfold owns; simpl; intuition lia|].
  split; [unfold owns; simpl; intuition lia|].
  split; [vm_compute; reflexivity|].
  vm_compute. discriminate.
Qed.

(** C4 fails as stated: no ghost is a constituent of the jet, yet the
    particle of pt 1e-60 it holds makes the loop fill the jet's pT into the
    cell (3,3), whose ghost nobody owns. *)
Lemma soft_particle_fills_a_cell :
  ghosts_owned_once (Sample.small 1) Sample.grid [Sample.jet_soft]
  /\ (forall jet, In jet [Sample.jet_soft] ->
                  ~ owns (Sample.small 1) Sample.grid jet 3 3)
  /\ In (Fill 0 0 50)
        (flow_calls (Ext := Sample.externals []) [Sample.jet_soft])
  /\ ~ TH2D.GetBinContent
         (exec_all (flow_calls (Ext := Sample.externals [])
                               [Sample.jet_soft]) Sample.grid) 3 3
       == 0.
Proof.
  split.
  { intros g Hg. apply In_ghosts in Hg.
    destruct Hg as [iy [iphi [_ [_ ->]]]].
    cbn [flat_map Sample.jet_soft constituents app count_occ].
    destruct (PseudoJet_eq_dec _ _); [discriminate|]. apply Nat.le_0_l. }
  split.
  { intros jet [<-|[]] [_ [_ Hin]].
    cbn [Sample.jet_soft constituents In] in Hin.
    destruct Hin as [Hin|[]]. discriminate. }
  split.
  { right. vm_compute. left. reflexivity. }
  vm_compute. discriminate.
Qed.

(** The theorem for C5 at a run whose first event has one resonance. *)
Lemma invalid_event_skipped_witness :
  fst (next (pythia Sample.start)) = true
  /\ List.length (resonances (event (snd (next (pythia Sample.start)))))
     <> 2%nat
  /\ event_body (Sample.small 2) 0 Sample.start
     = (mkState (Ext := Sample.externals [])
                ([Some Sample.WH_event], Sample.W_event)
                ([Some Sample.minbias], []) [2%nat] Sample.grid,
        []).
Proof.
  assert (H1 : fst (next (pythia Sample.start)) = true) by reflexivity.
  assert (H2 : List.length
                 (resonances (event (snd (next (pythia Sample.start)))))
               <> 2%nat) by (vm_compute; discriminate).
  split; [exact H1|]. split; [exact H2|].
  exact (proj1 (invalid_event_skipped (Sample.small 2) 0%nat Sample.start H1 H2)).
Defined.

(** The theorem for C4 on a 4 x 4 grid with one jet of pT 50 that owns the
    ghosts of three cells: those cells hold 50, another cell holds 0. *)
Lemma flow_cells_hold_owner_pT_witness :
  let h' := exec_all (flow_calls (Ext := Sample.externals []) [Sample.jet50])
                     Sample.grid in
  TH2D.GetBinContent h' 1 1 = 50
  /\ TH2D.GetBinContent h' 1 2 = 50
  /\ TH2D.GetBinContent h' 2 1 = 50
  /\ TH2D.GetBinContent h' 3 3 = 0.
Proof.
  assert (Hgrid : grid_ok (Sample.small 1) Sample.grid).
  { vm_compute. repeat split; reflexivity. }
  assert (Honce : ghosts_owned_once (Sample.small 1) Sample.grid [Sample.jet50]).
  { intros g Hg. vm_compute in Hg.
    repeat (destruct Hg as [<-|Hg]; [vm_compute; repeat constructor|]).
    destruct Hg. }
  assert (Hreal : forall jet c,
    In jet [Sample.jet50] -> In c (constituents jet) ->
    ~ In c (ghosts (Sample.small 1) Sample.grid) ->
    double_1e_50 < pt (Ext := Sample.externals []) c).
  { intros jet c [<-|[]] Hc Hn.
    cbn [Sample.jet50 constituents In] in Hc.
    destruct Hc as [<-|[<-|[<-|[<-|[]]]]];
      try (vm_compute; reflexivity);
      exfalso; apply Hn; vm_compute; tauto. }
  destruct (flow_cells_hold_owner_pT (Ext := Sample.externals [])
              (Sample.small 1) Sample.grid [Sample.jet50] Hgrid Honce Hreal)
    as [_ [_ [Hown Hnone]]].
  assert (Hin : In Sample.jet50 [Sample.jet50]) by (left; reflexivity).
  split; [|split; [|split]].
  - apply (Hown 1%Z 1%Z Sample.jet50 Hin).
    unfold owns. vm_compute. intuition discriminate.
  - apply (Hown 1%Z 2%Z Sample.jet50 Hin).
    unfold owns. vm_compute. intuition discriminate.
  - apply (Hown 2%Z 1%Z Sample.jet50 Hin).
    unfold owns. vm_compute. intuition discriminate.
  - apply (Hnone 3%Z 3%Z). intros jet [<-|[]] [_ [_ Hg]].
    vm_compute in Hg. intuition discriminate.
Defined.

(** * Further properties of main() *)

(** ** The jet definitions and the pages *)

Section MorePages.
Context {Ext : Externals}.
Variable cfg : Settings.

(** X1: whatever the switches and the radius, the three labels never
    collide and the map iterates them as kt, anti-kt, Cambridge-Aachen: the
    map holds one entry per switch that is on. *)
Theorem jetDefs_one_entry_per_switch :
  StdMap.keys (jetDefs cfg)
  = (if dok_t cfg then [kt_label cfg] else [])
    ++ (if doAntik_t cfg then [antikt_label cfg] else [])
    ++ (if doCambridge_Aachen cfg then [cambridge_label] else [])
  /\ List.length (jetDefs cfg)
     = (Nat.b2n (doAntik_t cfg) + Nat.b2n (dok_t cfg)
        + Nat.b2n (doCambridge_Aachen cfg))%nat.
Proof.
  unfold jetDefs, kt_label, antikt_label, cambridge_label.
  destruct (doAntik_t cfg), (dok_t cfg), (doCambridge_Aachen cfg);
    split; reflexivity.
Qed.

Lemma valid_events_upper n : forall iEvent st e,
  In e (valid_events cfg n iEvent st) -> (e < iEvent + n)%nat.
Proof.
  induction n as [|n IH]; intros iEvent st e; simpl.
  - intros [].
  - rewrite in_app_iff. intros [He|He].
    + destruct (valid_event st); simpl in He; [|contradiction].
      destruct He as [<-|[]]. lia.
    + apply IH in He. lia.
Qed.

(** X2: the document has one page per valid event and per entry of the
    map, and every page carries the number of a loop iteration. *)
Theorem page_count :
  forall n iEvent st,
    List.length (List.concat (snd (event_loop cfg n iEvent st)))
    = (List.length (valid_events cfg n iEvent st)
       * List.length (jetDefs cfg))%nat
    /\ forall pg,
         In pg (List.concat (snd (event_loop cfg n iEvent st))) ->
         (iEvent <= pg_iEvent pg < iEvent + n)%nat.
Proof.
  intros n iEvent st. split.
  - rewrite <- (length_map page_id), event_loop_ids.
    apply length_flat_map_uniform. intro e.
    unfold StdMap.keys. rewrite !length_map. reflexivity.
  - intros pg Hpg. apply (in_map page_id) in Hpg.
    rewrite event_loop_ids in Hpg. apply in_flat_map in Hpg.
    destruct Hpg as [e [He Hin]]. apply in_map_iff in Hin.
    destruct Hin as [l [Hid _]]. unfold page_id in Hid.
    injection Hid as He' _. subst e. split.
    + apply (valid_events_bounds cfg n iEvent st). exact He.
    + apply (valid_events_upper n iEvent st). exact He.
Qed.

(** X3: when [pythia.next()] fails the iteration ends at once: no page, and
    the pileup generator, the random generator and the histogram stay as
    they were. *)
Theorem failed_generation_skipped :
  forall iEvent st,
    fst (next (pythia st)) = false ->
    event_body cfg iEvent st
    = (mkState (snd (next (pythia st))) (pythiaPU st) (gRandom st) (pTflow st),
       []).
Proof.
  intros iEvent st Hfail. rewrite event_body_spec. unfold valid_event.
  destruct (next (pythia st)) as [ok py]. cbn [fst snd] in *. subst ok.
  reflexivity.
Qed.

(** X4: the identification loop keeps the order of the event record: [VH]
    holds the resonances of status -62, [ptcls_hs] the stable particles, and
    [stbl_ptcls] the four-momenta of the stable particles, entry by entry. *)
Theorem identify_in_event_order :
  forall ev,
    let '(VH, ptcls_hs, stbl_ptcls) := identify ev in
    VH = filter is_VH ev
    /\ ptcls_hs = filter Particle.isFinal ev
    /\ stbl_ptcls = map PseudoJet_of ptcls_hs
    /\ (forall k p, nth_error ptcls_hs k = Some p ->
                    nth_error stbl_ptcls k = Some (PseudoJet_of p))
    /\ (forall p, In p VH <-> In p ev /\ Particle.isResonance p = true
                              /\ Particle.status p = (-62)%Z).
Proof.
  intro ev. rewrite identify_spec. unfold finals.
  split; [reflexivity|]. split; [reflexivity|]. split; [reflexivity|]. split.
  - intros k p Hk. rewrite nth_error_map, Hk. reflexivity.
  - intro p. rewrite filter_In. unfold is_VH.
    rewrite andb_true_iff, Z.eqb_eq. reflexivity.
Qed.

Lemma last_pu_draws n : forall pu : Pythia,
  last (map snd (pu_draws n pu)) pu = Nat.iter n (fun s => snd (next s)) pu.
Proof.
  induction n as [|n IH]; intro pu; [reflexivity|].
  cbn [pu_draws map]. rewrite last_cons, IH, Nat.iter_succ_r. reflexivity.
Qed.

(** X5: a rendered event advances the hard-scatter generator by one call,
    draws the number of pileup interactions once, and advances the pileup
    generator by exactly that many calls, failed ones included. *)
Theorem generators_consumed_by_a_valid_event :
  forall iEvent st,
    valid_event st = true ->
    let st' := fst (event_body cfg iEvent st) in
    let n_inel := fst (Poisson (gRandom st) (mu cfg)) in
    pythia st' = snd (next (pythia st))
    /\ gRandom st' = snd (Poisson (gRandom st) (mu cfg))
    /\ pythiaPU st' = Nat.iter n_inel (fun s => snd (next s)) (pythiaPU st).
Proof.
  intros iEvent st Hvalid. rewrite event_body_spec, Hvalid. cbn [fst].
  cbn [pythia gRandom pythiaPU]. rewrite last_pu_draws.
  repeat split; reflexivity.
Qed.

End MorePages.

(** ** What the pages of one event share *)

Section SamePage.
Context {Ext : Externals}.
Variable cfg : Settings.

Lemma algorithm_loop_In iEvent ev VH ptcls_hs ptcls_pu stbl_ptcls defs pg :
  forall first,
    In pg (algorithm_loop cfg iEvent ev VH ptcls_hs ptcls_pu stbl_ptcls
                          first defs) ->
    exists first' jetDef,
      In jetDef defs
      /\ pg = mkPage iEvent (fst jetDef)
                (page_calls cfg ev VH ptcls_hs ptcls_pu stbl_ptcls first' jetDef).
Proof.
  induction defs as [|d defs IH]; intros first Hin; [contradiction|].
  cbn [algorithm_loop] in Hin. destruct Hin as [<-|Hin].
  - exists first, d. split; [left|]; reflexivity.
  - apply IH in Hin. destruct Hin as [first' [jetDef [Hd Hpg]]].
    exists first', jetDef. split; [right; exact Hd|exact Hpg].
Qed.

(** A page of the body of the event loop is a page of the algorithm loop
    over the particles of that event. *)
Lemma event_body_page iEvent st pg :
  In pg (snd (event_body cfg iEvent st)) ->
  let ev := event (snd (next (pythia st))) in
  let ptcls_pu :=
    overlaid (fst (Poisson (gRandom st) (mu cfg))) (pythiaPU st) in
  valid_event st = true
  /\ exists first jetDef stbl_ptcls,
       In jetDef (jetDefs cfg)
       /\ pg = mkPage iEvent (fst jetDef)
                 (page_calls cfg ev (resonances ev) (finals ev) ptcls_pu
                             stbl_ptcls first jetDef).
Proof.
  rewrite event_body_spec. intros Hin ev ptcls_pu.
  destruct (valid_event st); cbn [snd] in Hin; [|contradiction].
  split; [reflexivity|].
  apply algorithm_loop_In in Hin. destruct Hin as [first [jetDef [Hd ->]]].
  exists first, jetDef. eexists. split; [exact Hd|reflexivity].
Qed.

Lemma page_calls_texts ev VH ptcls_hs ptcls_pu stbl_ptcls first jetDef :
  filter is_particle_text
    (page_calls cfg ev VH ptcls_hs ptcls_pu stbl_ptcls first jetDef)
  = flat_map (VH_text cfg ev) VH.
Proof.
  unfold page_calls, flow_calls. rewrite !filter_app.
  change (filter is_particle_text (Reset :: ?l))
    with (filter is_particle_text l).
  rewrite (filter_flat_map_none _ flow_jet),
    (filter_flat_map_none _ (pu_marker cfg)),
    (filter_flat_map_none _ (hs_marker cfg)),
    (filter_flat_map_all _ (VH_text cfg ev)).
  - destruct first; simpl; rewrite app_nil_r; reflexivity.
  - intros p c Hin. apply VH_text_calls in Hin.
    destruct Hin as [q [col ->]]. reflexivity.
  - intros p c Hin. apply hs_marker_calls in Hin.
    destruct Hin as [s [col [size ->]]]. reflexivity.
  - intros p c Hin. apply pu_marker_calls in Hin.
    destruct Hin as [s [col [size ->]]]. reflexivity.
  - intros jet c Hin. apply flow_jet_calls in Hin.
    destruct Hin as [x [y [w ->]]]. reflexivity.
Qed.

(** X7: every page of an event, whatever its algorithm, draws the same
    particle markers: those of the pileup particles overlaid on the event,
    then those of the stable particles of the event. *)
Theorem markers_same_on_every_page_of_an_event :
  forall iEvent st pg,
    In pg (snd (event_body cfg iEvent st)) ->
    filter is_particle_marker (pg_calls pg)
    = flat_map (pu_marker cfg)
        (overlaid (fst (Poisson (gRandom st) (mu cfg))) (pythiaPU st))
      ++ flat_map (hs_marker cfg) (finals (event (snd (next (pythia st))))).
Proof.
  intros iEvent st pg Hin. apply event_body_page in Hin.
  destruct Hin as [_ [first [jetDef [stbl_ptcls [_ ->]]]]].
  cbn [pg_calls]. apply page_calls_markers.
Qed.

(** X8: every page labels exactly the two resonances of its event, each
    followed by its two daughters: six calls of drawParticleText, all in the
    hard-scatter colour. *)
Theorem six_resonance_labels_per_page :
  forall iEvent st pg,
    In pg (snd (event_body cfg iEvent st)) ->
    let ev := event (snd (next (pythia st))) in
    exists V H,
      resonances ev = [V; H]
      /\ filter is_particle_text (pg_calls pg)
         = [drawParticleText V (colHS cfg);
            drawParticleText (nth (Particle.daughter1 V) ev V) (colHS cfg);
            drawParticleText (nth (Particle.daughter2 V) ev V) (colHS cfg);
            drawParticleText H (colHS cfg);
            drawParticleText (nth (Particle.daughter1 H) ev H) (colHS cfg);
            drawParticleText (nth (Particle.daughter2 H) ev H) (colHS cfg)].
Proof.
  intros iEvent st pg Hin ev. apply event_body_page in Hin.
  destruct Hin as [Hvalid [first [jetDef [stbl_ptcls [_ Hcalls]]]]].
  unfold valid_event in Hvalid. subst ev.
  destruct (next (pythia st)) as [ok py]. cbn [snd] in *.
  apply andb_true_iff in Hvalid. destruct Hvalid as [_ Hlen].
  apply Nat.eqb_eq in Hlen.
  rewrite Hcalls. cbn [pg_calls]. rewrite page_calls_texts.
  destruct (resonances (event py)) as [|V [|H [|X rest]]];
    try discriminate Hlen.
  exists V, H. split; reflexivity.
Qed.

Lemma exec_all_no_histogram_call (calls : list Call) (h : TH2D) :
  (forall c, In c calls -> is_histogram_call c = false) ->
  exec_all calls h = h.
Proof.
  revert h. induction calls as [|c calls IH]; intros h Hno; [reflexivity|].
  cbn [exec_all fold_left]. fold (exec_all calls (exec h c)).
  assert (Hc : exec h c = h).
  { specialize (Hno c (or_introl eq_refl)). destruct c; try reflexivity;
      discriminate. }
  rewrite Hc. apply IH. intros c' Hin. apply Hno. right. exact Hin.
Qed.

(** The histogram a page leaves behind is the one its flow loop made. *)
Lemma page_calls_exec ev VH ptcls_hs ptcls_pu stbl_ptcls first jetDef h :
  exec_all (page_calls cfg ev VH ptcls_hs ptcls_pu stbl_ptcls first jetDef) h
  = exec_all (flow_calls
                (inclusive_jets stbl_ptcls (snd jetDef) (pTmin_jet cfg))) h.
Proof.
  unfold page_calls. rewrite exec_all_app.
  change (exec_all [ClusterSequence ?a ?b ?c] h) with h.
  rewrite exec_all_app. apply exec_all_no_histogram_call.
  intros c Hin. repeat (apply in_app_or in Hin; destruct Hin as [Hin|Hin]).
  - destruct Hin as [<-|[]]. reflexivity.
  - apply in_flat_map in Hin. destruct Hin as [p [_ Hin]].
    apply pu_marker_calls in Hin. destruct Hin as [s [col [size ->]]].
    reflexivity.
  - apply in_flat_map in Hin. destruct Hin as [p [_ Hin]].
    apply hs_marker_calls in Hin. destruct Hin as [s [col [size ->]]].
    reflexivity.
  - apply in_flat_map in Hin. destruct Hin as [p [_ Hin]].
    apply VH_text_calls in Hin. destruct Hin as [q [col ->]]. reflexivity.
  - destruct Hin as [<-|[<-|[]]]; reflexivity.
  - destruct first; [|contradiction].
    cbn [legend In] in Hin.
    repeat (destruct Hin as [<-|Hin]; [reflexivity|]). contradiction.
  - destruct Hin as [<-|[]]. reflexivity.
Qed.

Lemma cell_deposits_axes (X Y : TAxis) (f g : Z -> Z -> Q) binx biny jets :
  cell_deposits (TH2D.mk X Y f) binx biny jets
  = cell_deposits (TH2D.mk X Y g) binx biny jets.
Proof. reflexivity. Qed.

(** X9: nothing of what earlier pages or events left in the histogram
    reaches a page.  The content of every bin when the page is printed is
    the sum of the deposits of that page's own jets, whatever the histogram
    held before. *)
Theorem page_histogram_is_fresh :
  forall ev VH ptcls_hs ptcls_pu stbl_ptcls first jetDef
         (X Y : TAxis) (before : Z -> Z -> Q) binx biny,
    let h := TH2D.mk X Y before in
    let jets := inclusive_jets stbl_ptcls (snd jetDef) (pTmin_jet cfg) in
    TH2D.GetBinContent
      (exec_all (page_calls cfg ev VH ptcls_hs ptcls_pu stbl_ptcls first jetDef)
                h) binx biny
    = fold_left Qplus (cell_deposits (TH2D.mk X Y (fun _ _ => 0)) binx biny jets)
                0.
Proof.
  intros ev VH ptcls_hs ptcls_pu stbl_ptcls first jetDef X Y before binx biny
         h jets.
  rewrite page_calls_exec, flow_content. reflexivity.
Qed.

Lemma jetDefs_entries (jetDef : string * JetDefinition) :
  In jetDef (jetDefs cfg) ->
  exists alg,
    jetDef = (label_of cfg alg, mkJetDefinition alg (R cfg) E_scheme Best).
Proof.
  unfold jetDefs, label_of, kt_label, antikt_label, cambridge_label.
  destruct (doAntik_t cfg), (dok_t cfg), (doCambridge_Aachen cfg);
    cbn [StdMap.assign StdMap.empty String.compare String.append
         Ascii.compare]; intro Hin;
    cbn [In] in Hin;
    repeat (destruct Hin as [<-|Hin];
            [first [exists kt_algorithm; reflexivity
                   |exists antikt_algorithm; reflexivity
                   |exists cambridge_algorithm; reflexivity]|]);
    contradiction.
Qed.

(** X15: the label of a page names the algorithm that was run for it.  The
    page starts with the cluster sequence of one of the three algorithms,
    with the radius [R], the E scheme and the threshold [pTmin_jet], and its
    label, which is also the text drawn at (0.87, 0.96), is the label main()
    assigned that algorithm under. *)
Theorem page_label_names_its_algorithm :
  forall iEvent st pg,
    In pg (snd (event_body cfg iEvent st)) ->
    exists alg stbl_ptcls,
      pg_label pg = label_of cfg alg
      /\ hd_error (pg_calls pg)
         = Some (ClusterSequence stbl_ptcls
                   (mkJetDefinition alg (R cfg) E_scheme Best) (pTmin_jet cfg))
      /\ In (drawText 0.87 0.96
               (label_of cfg alg
                ++ Form ", #it{p}_{T} > %.0f GeV" (pTmin_jet cfg))%string
               (Some 31%Z))
            (pg_calls pg).
Proof.
  intros iEvent st pg Hin. apply event_body_page in Hin.
  destruct Hin as [_ [first [jetDef [stbl_ptcls [Hdef ->]]]]].
  apply jetDefs_entries in Hdef. destruct Hdef as [alg ->].
  exists alg, stbl_ptcls. cbn [pg_label pg_calls fst].
  split; [reflexivity|]. split; [reflexivity|].
  unfold page_calls. cbn [snd fst].
  apply in_or_app. right. apply in_or_app. right. apply in_or_app. right.
  apply in_or_app. right. apply in_or_app. right. apply in_or_app. right.
  apply in_or_app. left. right. left. reflexivity.
Qed.

End SamePage.

(** ** The grid of the histogram and the ghost probes *)

Lemma NoDup_flat_map {A B : Type} (f : A -> list B) (l : list A) :
  NoDup l -> (forall a, In a l -> NoDup (f a)) ->
  (forall a b x, In a l -> In b l -> In x (f a) -> In x (f b) -> a = b) ->
  NoDup (flat_map f l).
Proof.
  induction l as [|a l IH]; intros Hl Hf Hdisj; simpl; [constructor|].
  inversion Hl as [|? ? Hnotin Hl']; subst.
  apply NoDup_app.
  - apply Hf. left. reflexivity.
  - apply IH; [exact Hl'| |].
    + intros b Hb. apply Hf. right. exact Hb.
    + intros b c x Hb Hc. apply Hdisj; right; assumption.
  - intros x Hx Hin. apply in_flat_map in Hin. destruct Hin as [b [Hb Hxb]].
    assert (a = b) by (apply (Hdisj a b x); auto; [left|right]; auto).
    subst b. contradiction.
Qed.

Lemma NoDup_bins (n : Z) : NoDup (bins n).
Proof.
  unfold bins. apply NoDup_map_NoDup_ForallPairs; [|apply seq_NoDup].
  intros x y _ _ H. lia.
Qed.

Lemma NoDup_singleton {A : Type} (l : list A) (x : A) :
  NoDup l -> (forall y, In y l <-> y = x) -> l = [x].
Proof.
  intros Hl Hx. destruct l as [|a l].
  - exfalso. apply (proj2 (Hx x) eq_refl).
  - assert (a = x) by (apply Hx; left; reflexivity). subst a.
    destruct l as [|b l]; [reflexivity|].
    assert (b = x) by (apply Hx; right; left; reflexivity). subst b.
    inversion Hl as [|? ? Hnotin _]. exfalso. apply Hnotin. left. reflexivity.
Qed.

Section Grid.
Context {Ext : Externals}.
Variable cfg : Settings.

(** X10: a Fill at the coordinates of a ghost probe changes the cell the
    probe was built for, and no other bin. *)
Theorem ghost_fills_its_own_cell :
  forall h iy iphi w binx biny,
    grid_ok cfg h ->
    (1 <= iy <= NyBins cfg)%Z -> (1 <= iphi <= NphiBins cfg)%Z ->
    let g := ghost_at h iy iphi in
    TH2D.GetBinContent (TH2D.Fill h (rap g) (phi_std g) w) binx biny
    = if ((binx =? iy) && (biny =? iphi))%Z
      then TH2D.GetBinContent h binx biny + w
      else TH2D.GetBinContent h binx biny.
Proof.
  intros h iy iphi w binx biny Hgrid Hy Hphi g.
  pose proof (ghost_in_cell cfg h binx biny Hgrid iy iphi Hy Hphi) as Hcell.
  unfold in_cell in Hcell. fold g in Hcell.
  unfold TH2D.Fill, TH2D.GetBinContent. cbn [TH2D.content].
  rewrite Hcell. reflexivity.
Qed.

(** X11: the probes tile the grid.  No two probes of the list coincide, and
    every cell of the grid holds exactly one probe of the list, its own. *)
Theorem ghosts_tile_the_grid :
  forall h,
    grid_ok cfg h ->
    NoDup (ghosts cfg h)
    /\ forall binx biny,
         (1 <= binx <= NyBins cfg)%Z -> (1 <= biny <= NphiBins cfg)%Z ->
         filter (in_cell h binx biny) (ghosts cfg h) = [ghost_at h binx biny].
Proof.
  intros h Hgrid.
  assert (Hinj : forall iy iphi iy' iphi',
    (1 <= iy <= NyBins cfg)%Z -> (1 <= iphi <= NphiBins cfg)%Z ->
    ghost_at h iy iphi = ghost_at h iy' iphi' -> iy = iy' /\ iphi = iphi').
  { intros iy iphi iy' iphi' Hy Hphi Heq.
    destruct Hgrid as [Nx [Ny [Rx Ry]]].
    pose proof (f_equal rap Heq) as Hcx.
    pose proof (f_equal phi_std Heq) as Hcy.
    cbn [rap phi_std ghost_at] in Hcx, Hcy.
    apply GetBinCenter_inj in Hcx; [|lia|exact Rx].
    apply GetBinCenter_inj in Hcy; [|lia|exact Ry].
    auto. }
  assert (Hnodup : NoDup (ghosts cfg h)).
  { unfold ghosts. apply NoDup_flat_map.
    - apply NoDup_bins.
    - intros iy Hy. apply In_bins in Hy.
      apply NoDup_map_NoDup_ForallPairs; [|apply NoDup_bins].
      intros iphi iphi' Hphi _ Heq. apply In_bins in Hphi.
      apply (Hinj iy iphi iy iphi' Hy Hphi Heq).
    - intros iy iy' g Hy _ Hg Hg'. apply In_bins in Hy.
      apply in_map_iff in Hg. destruct Hg as [iphi [<- Hphi]].
      apply in_map_iff in Hg'. destruct Hg' as [iphi' [Heq _]].
      apply In_bins in Hphi. symmetry in Heq.
      apply (Hinj iy iphi iy' iphi' Hy Hphi Heq). }
  split; [exact Hnodup|].
  intros binx biny Hx Hy. apply NoDup_singleton.
  - apply NoDup_filter. exact Hnodup.
  - intro g. rewrite filter_In, In_ghosts. split.
    + intros [[iy [iphi [Hiy [Hiphi ->]]]] Hcell].
      rewrite (ghost_in_cell cfg h binx biny Hgrid iy iphi Hiy Hiphi) in Hcell.
      apply andb_true_iff in Hcell. destruct Hcell as [E1 E2].
      apply Z.eqb_eq in E1, E2. subst. reflexivity.
    + intros ->. split; [exists binx, biny; auto|].
      rewrite (ghost_in_cell cfg h binx biny Hgrid binx biny Hx Hy).
      rewrite !Z.eqb_refl. reflexivity.
Qed.

End Grid.

(** X16: the binning of the histogram is the same after any number of
    events as before the first one: no call of the run changes an axis. *)
Theorem binning_fixed_for_the_run :
  forall {Ext : Externals} (cfg : Settings) n iEvent (st : State),
    TH2D.fXaxis (pTflow (fst (event_loop cfg n iEvent st)))
    = TH2D.fXaxis (pTflow st)
    /\ TH2D.fYaxis (pTflow (fst (event_loop cfg n iEvent st)))
       = TH2D.fYaxis (pTflow st).
Proof.
  intros Ext cfg n. induction n as [|n IH]; intros iEvent st.
  - split; reflexivity.
  - cbn [event_loop].
    pose proof (event_body_axes cfg iEvent st) as [Hx Hy].
    destruct (event_body cfg iEvent st) as [st1 pages]. cbn [fst] in Hx, Hy.
    specialize (IH (S iEvent) st1).
    destruct (event_loop cfg n (S iEvent) st1) as [st2 rest].
    cbn [fst] in *. destruct IH as [IHx IHy]. split; congruence.
Qed.


(** ** The z range handed to SetRangeUser *)

Section ZRange.
Variable h : TH2D.

Lemma In_scan_bins (binx biny : Z) :
  In (binx, biny) (scan_bins h)
  <-> (1 <= binx <= TAxis.fNbins (TH2D.fXaxis h))%Z
      /\ (1 <= biny <= TAxis.fNbins (TH2D.fYaxis h))%Z.
Proof.
  unfold scan_bins. rewrite in_flat_map. split.
  - intros [y [Hy Hin]]. apply in_map_iff in Hin.
    destruct Hin as [x [Heq Hx]]. injection Heq as <- <-.
    rewrite In_bins in Hx, Hy. auto.
  - intros [Hx Hy]. exists biny. rewrite In_bins. split; [exact Hy|].
    apply in_map_iff. exists binx. rewrite In_bins. auto.
Qed.

Lemma GetMaximumBin_fold (l : list (Z * Z)) : forall acc,
  let r := fold_left (GetMaximumBin_step h) l acc in
  fst acc <= fst r
  /\ (forall c, In c l -> bin_content h c <= fst r)
  /\ (r = acc \/ (In (snd r) l /\ fst r = bin_content h (snd r))).
Proof.
  induction l as [|c l IH]; intro acc; cbn [fold_left].
  - split; [apply Qle_refl|]. split; [intros c []|left; reflexivity].
  - specialize (IH (GetMaximumBin_step h acc c)).
    cbv zeta in IH. destruct IH as [Hle [Hall Hloc]].
    assert (Hstep : GetMaximumBin_step h acc c
                    = if Qgtb (bin_content h c) (fst acc)
                      then (bin_content h c, c) else acc) by reflexivity.
    cbv zeta. rewrite Hstep in Hle, Hall, Hloc |- *. clear Hstep.
    destruct (Qgtb (bin_content h c) (fst acc)) eqn:E.
    + apply Qgtb_lt in E. cbn [fst snd] in Hle.
      split; [lra|]. split.
      * intros c' [<-|Hin]; [exact Hle|apply Hall; exact Hin].
      * right. destruct Hloc as [Heq|[Hin Heq]].
        -- rewrite Heq. cbn [fst snd]. split; [left|]; reflexivity.
        -- split; [right; exact Hin|exact Heq].
    + apply Qgtb_le in E.
      split; [exact Hle|]. split.
      * intros c' [<-|Hin]; [lra|apply Hall; exact Hin].
      * destruct Hloc as [Heq|[Hin Heq]]; [left; exact Heq|].
        right. split; [right; exact Hin|exact Heq].
Qed.

(** Where the search ends when some visited bin holds more than
    [-FLT_MAX]. *)
Lemma GetMaximumBin_spec :
  (0 < TAxis.fNbins (TH2D.fXaxis h))%Z ->
  (0 < TAxis.fNbins (TH2D.fYaxis h))%Z ->
  (forall c, In c (scan_bins h) -> - FLT_MAX < bin_content h c) ->
  In (GetMaximumBin h) (scan_bins h)
  /\ forall c, In c (scan_bins h) ->
               bin_content h c <= bin_content h (GetMaximumBin h).
Proof.
  intros Hx Hy Hlow. unfold GetMaximumBin.
  pose proof (GetMaximumBin_fold (scan_bins h) (- FLT_MAX, (0, 0)%Z)) as Hf.
  cbv zeta in Hf. destruct Hf as [_ [Hall Hloc]].
  assert (Hone : In (1, 1)%Z (scan_bins h)) by (apply In_scan_bins; lia).
  destruct Hloc as [Heq|[Hin Hval]].
  - exfalso. pose proof (Hall _ Hone) as H1. pose proof (Hlow _ Hone) as H2.
    rewrite Heq in H1. cbn [fst] in H1. lra.
  - split; [exact Hin|]. intros c Hc. rewrite <- Hval. apply Hall. exact Hc.
Qed.

End ZRange.

(** X13: when the grid is not empty and no cell holds less than
    [-FLT_MAX], the upper end of the z range is four times the content of a
    fullest cell of the grid; the lower end is a quarter of the jet
    threshold. *)
Theorem z_range_upper_is_four_times_the_peak :
  forall (cfg : Settings) (h : TH2D),
    (0 < TAxis.fNbins (TH2D.fXaxis h))%Z ->
    (0 < TAxis.fNbins (TH2D.fYaxis h))%Z ->
    (forall binx biny,
       (1 <= binx <= TAxis.fNbins (TH2D.fXaxis h))%Z ->
       (1 <= biny <= TAxis.fNbins (TH2D.fYaxis h))%Z ->
       - FLT_MAX < TH2D.GetBinContent h binx biny) ->
    exists peakx peaky,
      (1 <= peakx <= TAxis.fNbins (TH2D.fXaxis h))%Z
      /\ (1 <= peaky <= TAxis.fNbins (TH2D.fYaxis h))%Z
      /\ z_range cfg h
         = (pTmin_jet cfg / 4, TH2D.GetBinContent h peakx peaky * 4)
      /\ forall binx biny,
           (1 <= binx <= TAxis.fNbins (TH2D.fXaxis h))%Z ->
           (1 <= biny <= TAxis.fNbins (TH2D.fYaxis h))%Z ->
           TH2D.GetBinContent h binx biny * 4 <= snd (z_range cfg h).
Proof.
  intros cfg h Hx Hy Hlow.
  destruct (GetMaximumBin_spec h Hx Hy) as [Hin Hmax].
  { intros [binx biny] Hc. apply In_scan_bins in Hc.
    apply Hlow; apply Hc. }
  unfold z_range. destruct (GetMaximumBin h) as [peakx peaky].
  apply In_scan_bins in Hin. exists peakx, peaky.
  split; [apply Hin|]. split; [apply Hin|]. split; [reflexivity|].
  intros binx biny Hbx Hby. cbn [fst snd].
  assert (Hc : In (binx, biny) (scan_bins h)) by (apply In_scan_bins; auto).
  apply Hmax in Hc. unfold bin_content in Hc. cbn [fst snd] in Hc.
  apply Qmult_le_compat_r; [exact Hc|]. unfold Qle. simpl. lia.
Qed.

(** X14: when no cell of the grid received a deposit, as for a page without
    a jet above the threshold, the z range handed to SetRangeUser has its
    upper end, zero, below its lower end. *)
Theorem z_range_inverted_without_deposits :
  forall (cfg : Settings) (h : TH2D),
    0 < pTmin_jet cfg ->
    (0 < TAxis.fNbins (TH2D.fXaxis h))%Z ->
    (0 < TAxis.fNbins (TH2D.fYaxis h))%Z ->
    (forall binx biny,
       (1 <= binx <= TAxis.fNbins (TH2D.fXaxis h))%Z ->
       (1 <= biny <= TAxis.fNbins (TH2D.fYaxis h))%Z ->
       TH2D.GetBinContent h binx biny == 0) ->
    snd (z_range cfg h) == 0 /\ snd (z_range cfg h) < fst (z_range cfg h).
Proof.
  intros cfg h Hpt Hx Hy Hzero.
  destruct (GetMaximumBin_spec h Hx Hy) as [Hin _].
  { intros [binx biny] Hc. apply In_scan_bins in Hc. unfold bin_content.
    cbn [fst snd]. rewrite (Hzero binx biny); [|apply Hc|apply Hc].
    unfold FLT_MAX, Qlt. simpl. lia. }
  unfold z_range. destruct (GetMaximumBin h) as [peakx peaky].
  apply In_scan_bins in Hin. cbn [fst snd].
  assert (H0 : TH2D.GetBinContent h peakx peaky * 4 == 0).
  { rewrite (Hzero peakx peaky); [|apply Hin|apply Hin]. reflexivity. }
  split; [exact H0|]. rewrite H0. apply Qlt_shift_div_l; lra.
Qed.

(** ** The theorems above on the replayed runs *)

(** X3 on a run whose first call of [next] fails. *)
Lemma failed_generation_skipped_witness :
  fst (next (pythia Sample.start_failing)) = false
  /\ event_body (Sample.small 2) 0 Sample.start_failing
     = (mkState (Ext := Sample.externals [])
                ([Some Sample.WH_event], [])
                ([Some Sample.minbias], []) [2%nat] Sample.grid,
        []).
Proof.
  assert (H : fst (next (pythia Sample.start_failing)) = false)
    by reflexivity.
  split; [exact H|].
  exact (failed_generation_skipped (Sample.small 2) 0%nat
           Sample.start_failing H).
Defined.

(** X5 on a run whose first event draws three pileup interactions, the
    second of which fails: the pileup generator is three calls further. *)
Lemma generators_consumed_by_a_valid_event_witness :
  valid_event Sample.start_valid = true
  /\ pythiaPU (fst (event_body (Sample.small 1) 0 Sample.start_valid))
     = ([Some Sample.minbias], Sample.minbias)
  /\ gRandom (fst (event_body (Sample.small 1) 0 Sample.start_valid))
     = [1%nat].
Proof.
  assert (H : valid_event Sample.start_valid = true) by reflexivity.
  destruct (generators_consumed_by_a_valid_event (Sample.small 1) 0%nat
              Sample.start_valid H) as [_ [Hrnd Hpu]].
  split; [exact H|]. split; [exact Hpu|exact Hrnd].
Defined.

(** X7 and X8 on the first page of that event. *)
Lemma markers_same_on_every_page_of_an_event_witness :
  List.length
    (filter is_particle_marker
       (pg_calls
          (nth 0 (snd (event_body (Sample.small 1) 0 Sample.start_valid))
               (mkPage 0 EmptyString []))))
  = 9%nat.
Proof.
  assert (Hin : In (nth 0 (snd (event_body (Sample.small 1) 0
                                           Sample.start_valid))
                        (mkPage 0 EmptyString []))
                   (snd (event_body (Sample.small 1) 0 Sample.start_valid))).
  { apply nth_In. vm_compute. repeat constructor. }
  rewrite (markers_same_on_every_page_of_an_event (Sample.small 1) 0%nat
             Sample.start_valid _ Hin).
  vm_compute. reflexivity.
Defined.

Lemma six_resonance_labels_per_page_witness :
  List.length
    (filter is_particle_text
       (pg_calls
          (nth 0 (snd (event_body (Sample.small 1) 0 Sample.start_valid))
               (mkPage 0 EmptyString []))))
  = 6%nat.
Proof.
  assert (Hin : In (nth 0 (snd (event_body (Sample.small 1) 0
                                           Sample.start_valid))
                        (mkPage 0 EmptyString []))
                   (snd (event_body (Sample.small 1) 0 Sample.start_valid))).
  { apply nth_In. vm_compute. repeat constructor. }
  destruct (six_resonance_labels_per_page (Sample.small 1) 0%nat
              Sample.start_valid _ Hin) as [V [H [_ Heq]]].
  rewrite Heq. reflexivity.
Defined.

(** X10 and X11 on the 4 x 4 grid. *)
Lemma ghost_fills_its_own_cell_witness :
  TH2D.GetBinContent
    (TH2D.Fill Sample.grid
       (rap (Ext := Sample.externals []) (ghost_at Sample.grid 1 2))
       (phi_std (Ext := Sample.externals []) (ghost_at Sample.grid 1 2)) 50)
    1 2
  = 0 + 50
  /\ TH2D.GetBinContent
       (TH2D.Fill Sample.grid
          (rap (Ext := Sample.externals []) (ghost_at Sample.grid 1 2))
          (phi_std (Ext := Sample.externals []) (ghost_at Sample.grid 1 2)) 50)
       2 2
     = 0.
Proof.
  assert (Hgrid : grid_ok (Sample.small 1) Sample.grid).
  { vm_compute. repeat split; reflexivity. }
  assert (Hy : (1 <= 1 <= NyBins (Sample.small 1))%Z)
    by (vm_compute; split; discriminate).
  assert (Hphi : (1 <= 2 <= NphiBins (Sample.small 1))%Z)
    by (vm_compute; split; discriminate).
  split.
  - exact (ghost_fills_its_own_cell (Ext := Sample.externals [])
             (Sample.small 1) Sample.grid 1 2 50 1 2 Hgrid Hy Hphi).
  - exact (ghost_fills_its_own_cell (Ext := Sample.externals [])
             (Sample.small 1) Sample.grid 1 2 50 2 2 Hgrid Hy Hphi).
Defined.

Lemma ghosts_tile_the_grid_witness :
  NoDup (ghosts (Sample.small 1) Sample.grid)
  /\ filter (in_cell (Ext := Sample.externals []) Sample.grid 2 3)
            (ghosts (Sample.small 1) Sample.grid)
     = [ghost_at Sample.grid 2 3].
Proof.
  assert (Hgrid : grid_ok (Sample.small 1) Sample.grid).
  { vm_compute. repeat split; reflexivity. }
  destruct (ghosts_tile_the_grid (Ext := Sample.externals [])
              (Sample.small 1) Sample.grid Hgrid) as [Hnodup Hcell].
  split; [exact Hnodup|].
  apply Hcell; vm_compute; split; discriminate.
Defined.


(** X13 on the histogram the jet of pT 50 leaves: the upper end is 200. *)
Lemma z_range_upper_is_four_times_the_peak_witness :
  snd (z_range (Sample.small 1)
         (exec_all (flow_calls (Ext := Sample.externals []) [Sample.jet50])
                   Sample.grid))
  == 200.
Proof.
  set (h := exec_all (flow_calls (Ext := Sample.externals []) [Sample.jet50])
                     Sample.grid).
  assert (Hx : (0 < TAxis.fNbins (TH2D.fXaxis h))%Z) by reflexivity.
  assert (Hy : (0 < TAxis.fNbins (TH2D.fYaxis h))%Z) by reflexivity.
  assert (Hlow : forall binx biny,
    (1 <= binx <= TAxis.fNbins (TH2D.fXaxis h))%Z ->
    (1 <= biny <= TAxis.fNbins (TH2D.fYaxis h))%Z ->
    - FLT_MAX < TH2D.GetBinContent h binx biny).
  { intros binx biny Hbx Hby.
    change (TAxis.fNbins (TH2D.fXaxis h)) with 4%Z in Hbx.
    change (TAxis.fNbins (TH2D.fYaxis h)) with 4%Z in Hby.
    assert (Ex : (binx = 1 \/ binx = 2 \/ binx = 3 \/ binx = 4)%Z) by lia.
    assert (Ey : (biny = 1 \/ biny = 2 \/ biny = 3 \/ biny = 4)%Z) by lia.
    destruct Ex as [->|[->|[->| ->]]]; destruct Ey as [->|[->|[->| ->]]];
      vm_compute; reflexivity. }
  destruct (z_range_upper_is_four_times_the_peak (Sample.small 1) h Hx Hy Hlow)
    as [peakx [peaky [_ [_ [_ Hmax]]]]].
  apply Qle_antisym.
  - vm_compute. discriminate.
  - assert (H11 : TH2D.GetBinContent h 1 1 * 4
                  <= snd (z_range (Sample.small 1) h)).
    { apply Hmax; vm_compute; split; discriminate. }
    assert (E : TH2D.GetBinContent h 1 1 * 4 == 200) by (vm_compute; reflexivity).
    rewrite <- E. exact H11.
Defined.

(** X14 on a page without jets: the range is [25/4, 0]. *)
Lemma z_range_inverted_without_deposits_witness :
  snd (z_range (Sample.small 1)
         (exec_all (flow_calls (Ext := Sample.externals []) []) Sample.grid))
  < fst (z_range (Sample.small 1)
           (exec_all (flow_calls (Ext := Sample.externals []) []) Sample.grid)).
Proof.
  apply (z_range_inverted_without_deposits (Sample.small 1)
           (exec_all (flow_calls (Ext := Sample.externals []) []) Sample.grid)).
  - reflexivity.
  - reflexivity.
  - reflexivity.
  - intros binx biny _ _. reflexivity.
Defined.

(** X15 on the first page of the rendered event: it is the kt page. *)
Lemma page_label_names_its_algorithm_witness :
  exists alg,
    pg_label (nth 0 (snd (event_body (Sample.small 1) 0 Sample.start_valid))
                  (mkPage 0 EmptyString []))
    = label_of (Ext := Sample.externals []) (Sample.small 1) alg.
Proof.
  assert (Hin : In (nth 0 (snd (event_body (Sample.small 1) 0
                                           Sample.start_valid))
                        (mkPage 0 EmptyString []))
                   (snd (event_body (Sample.small 1) 0 Sample.start_valid))).
  { apply nth_In. vm_compute. repeat constructor. }
  destruct (page_label_names_its_algorithm (Sample.small 1) 0%nat
              Sample.start_valid _ Hin) as [alg [_ [Hlabel _]]].
  exists alg. exact Hlabel.
Defined.
